(** * write_files_perf: a shallow embedding of [main.py]

    The program times four ways of writing a batch of in-memory chunks to
    files.  Its observable behaviour is made of file-system calls, lines on
    standard output, reads of a monotonic clock, draws from the global random
    generator and the thread pool's choice of which worker advances next.
    All of these live in one [world] record that every function threads
    through the error monad [M]. *)

From Stdlib Require Import ZArith Lia Ascii String.
From stdpp Require Import base numbers option list gmap strings pretty.

Open Scope string_scope.
Open Scope list_scope.
Open Scope nat_scope.

(** ** The file system

    A directory maps entry names to nodes; the current working directory is
    itself such a map.  A path is the list of its segments below the working
    directory, so ['./aiofiles/3.txt'] is [["aiofiles"; "3.txt"]]. *)

#[local] Unset Elimination Schemes.
Inductive node : Type :=
  | File (data : string)
  | Dir (entries : gmap string node).

#[local] Set Elimination Schemes.

Definition path : Type := list string.

Definition is_dir (o : option node) : bool :=
  match o with Some (Dir _) => true | _ => false end.

Definition is_file (o : option node) : bool :=
  match o with Some (File _) => true | _ => false end.

(** Resolving a path: the node found, or [ENOENT] (a segment is missing), or
    [ENOTDIR] (a segment before the last is a regular file). *)
Inductive stat : Type :=
  | Found (n : node)
  | Missing
  | Blocked.

Fixpoint stat_path (p : path) (n : node) : stat :=
  match p with
  | [] => Found n
  | c :: p' =>
      match n with
      | Dir m => match m !! c with Some n' => stat_path p' n' | None => Missing end
      | File _ => Blocked
      end
  end.

Definition parent (p : path) : path := removelast p.

(** [update_path f p m]: replace the entry that [p] names by [f] of it, when
    every segment before the last one is a directory. *)
Fixpoint update_path (f : option node → option node) (p : path)
    (m : gmap string node) : gmap string node :=
  match p with
  | [] => m
  | c :: p' =>
      match p' with
      | [] => partial_alter f c m
      | _ :: _ =>
          match m !! c with
          | Some (Dir m') => <[c := Dir (update_path f p' m')]> m
          | _ => m
          end
      end
  end.

(** ** Exceptions, events and the world *)

Inductive exn : Type :=
  | FileNotFoundError (p : path)
  | FileExistsError (p : path)
  | NotADirectoryError (p : path)
  | IsADirectoryError (p : path)
  | IndexError.

Inductive result (A : Type) : Type :=
  | Ok (a : A)
  | Raise (e : exn).
Arguments Ok {A} a.
Arguments Raise {A} e.

(** What the process does to the outside, in the order it does it. *)
Inductive event : Type :=
  | EvRmtree (p : path)
  | EvMkdir (p : path)
  | EvOpen (p : path)
  | EvWrite (p : path) (data : string)
  | EvClose (p : path)
  | EvPrint (line : string).

Record world : Type := World {
  fs : gmap string node;
  (** every event so far, each with the file system as it was just after *)
  log : list (event * gmap string node);
  (** monotonic clock: the current reading in nanoseconds, and how far each
      successive read finds it advanced *)
  now : N;
  ticks : nat → N;
  nticks : nat;
  (** the global random generator: the 53-bit numerators its successive
      [random()] calls return, and how many were drawn *)
  rng : nat → N;
  ndrawn : nat;
  (** the thread pool: which of the runnable workers advances at each step *)
  sched : nat → nat;
  nsched : nat
}.

Definition set_fs (m : gmap string node) (w : world) : world :=
  World m (log w) (now w) (ticks w) (nticks w) (rng w) (ndrawn w) (sched w) (nsched w).

Definition emit (e : event) (w : world) : world :=
  World (fs w) (log w ++ [(e, fs w)]) (now w) (ticks w) (nticks w)
        (rng w) (ndrawn w) (sched w) (nsched w).

Definition M (A : Type) : Type := world → result A * world.

Definition ret {A} (a : A) : M A := λ w, (Ok a, w).

Definition raise {A} (e : exn) : M A := λ w, (Raise e, w).

Definition bind {A B} (c : M A) (k : A → M B) : M B := λ w,
  match c w with
  | (Ok a, w1) => k a w1
  | (Raise e, w1) => (Raise e, w1)
  end.

Declare Scope py_scope.
Delimit Scope py_scope with py.
Notation "x <- c ;; k" := (bind c (λ x, k))
  (at level 100, c at next level, right associativity) : py_scope.
Notation "c ;; k" := (bind c (λ _, k))
  (at level 100, right associativity) : py_scope.
Open Scope py_scope.

(** [try: body finally: fin]. The [finally] block runs on both exits; when it
    completes the body's outcome (value or exception) stands, when it raises
    its own exception replaces it. *)
Definition try_finally {A} (body : M A) (fin : M unit) : M A := λ w,
  match body w with
  | (r, w1) =>
      match fin w1 with
      | (Ok _, w2) => (r, w2)
      | (Raise e, w2) => (Raise e, w2)
      end
  end.

(** [print(line)] *)
Definition print (line : string) : M unit := λ w, (Ok tt, emit (EvPrint line) w).

(** The lines among logged events, and standard output so far. *)
Definition prints (l : list (event * gmap string node)) : list string :=
  omap (λ e, match e.1 with EvPrint s => Some s | _ => None end) l.

Definition stdout (w : world) : list string := prints (log w).

(** ** File-system calls *)

Definition stat_at (p : path) (w : world) : stat := stat_path p (Dir (fs w)).

(** [pathlib.Path.exists()]: true when the path resolves; both [ENOENT] and
    [ENOTDIR] answer false. *)
Definition exists_ (p : path) : M bool := λ w,
  (Ok (match stat_at p w with Found _ => true | _ => false end), w).

(** [pathlib.Path.is_dir()] *)
Definition is_dir_ (p : path) : M bool := λ w,
  (Ok (match stat_at p w with Found (Dir _) => true | _ => false end), w).

Definition commit (e : event) (m : gmap string node) : M unit := λ w,
  (Ok tt, emit e (set_fs m w)).

(** [shutil.rmtree(p)]: removes the directory with everything below it; a
    path that is not a directory is an error. *)
Definition rmtree (p : path) : M unit := λ w,
  match stat_at p w with
  | Found (Dir _) => commit (EvRmtree p) (update_path (λ _, None) p (fs w)) w
  | Found (File _) => (Raise (NotADirectoryError p), w)
  | Missing => (Raise (FileNotFoundError p), w)
  | Blocked => (Raise (NotADirectoryError p), w)
  end.

(** [os.mkdir(p)] *)
Definition os_mkdir (p : path) : M unit := λ w,
  match stat_at p w with
  | Found _ => (Raise (FileExistsError p), w)
  | Blocked => (Raise (NotADirectoryError p), w)
  | Missing =>
      match stat_at (parent p) w with
      | Found (Dir _) =>
          commit (EvMkdir p) (update_path (λ _, Some (Dir ∅)) p (fs w)) w
      | Found (File _) | Blocked => (Raise (NotADirectoryError p), w)
      | Missing => (Raise (FileNotFoundError p), w)
      end
  end.

(** [pathlib.Path.mkdir(parents, exist_ok)]: try [os.mkdir]; on
    [FileNotFoundError] create the parent chain first (when [parents]), on any
    other [OSError] give up unless [exist_ok] and the path is a directory.
    The recursion goes to the parent, so the path's length bounds it. *)
Fixpoint mkdir_fuel (fuel : nat) (p : path) (parents exist_ok : bool) : M unit := λ w,
  match os_mkdir p w with
  | (Ok u, w1) => (Ok u, w1)
  | (Raise (FileNotFoundError q), w1) =>
      match fuel with
      | S fuel' =>
          if parents && negb (bool_decide (parent p = p)) then
            (mkdir_fuel fuel' (parent p) true true ;;
             mkdir_fuel fuel' p false exist_ok) w1
          else (Raise (FileNotFoundError q), w1)
      | O => (Raise (FileNotFoundError q), w1)
      end
  | (Raise e, w1) =>
      match is_dir_ p w1 with
      | (Ok d, w2) => if negb exist_ok || negb d then (Raise e, w2) else (Ok tt, w2)
      | (Raise e', w2) => (Raise e', w2)
      end
  end.

Definition mkdir (p : path) (parents exist_ok : bool) : M unit :=
  mkdir_fuel (S (length p)) p parents exist_ok.

(** [open(p, 'w+')]: creates the file or truncates it to nothing. *)
Definition open_w (p : path) : M path := λ w,
  match stat_at p w with
  | Found (Dir _) => (Raise (IsADirectoryError p), w)
  | Blocked => (Raise (NotADirectoryError p), w)
  | Found (File _) =>
      (Ok p, emit (EvOpen p) (set_fs (update_path (λ _, Some (File "")) p (fs w)) w))
  | Missing =>
      match stat_at (parent p) w with
      | Found (Dir _) =>
          (Ok p, emit (EvOpen p) (set_fs (update_path (λ _, Some (File "")) p (fs w)) w))
      | Found (File _) | Blocked => (Raise (NotADirectoryError p), w)
      | Missing => (Raise (FileNotFoundError p), w)
      end
  end.

Fixpoint string_drop (n : nat) (s : string) : string :=
  match n, s with
  | O, _ => s
  | S n', String _ s' => string_drop n' s'
  | S _, EmptyString => EmptyString
  end.

(** Writing [data] at offset 0 of a file that holds [old]. *)
Definition overwrite (data old : string) : string :=
  data +:+ string_drop (String.length data) old.

(** A write through an open handle, at offset 0: where a freshly opened handle
    stands ([f.write]) and the default offset of [AIOFile.write].  The handle
    is the path it was opened at; buffering is not modelled, the data is in
    the file when the call returns.  A file holds the characters written:
    text-mode encoding and newline translation are taken to be the identity,
    as they are on the characters the program generates. *)
Definition write_h (h : path) (data : string) : M unit := λ w,
  (Ok tt,
   emit (EvWrite h data)
     (set_fs (update_path (λ o, match o with
                                | Some (File old) => Some (File (overwrite data old))
                                | o' => o'
                                end) h (fs w)) w)).

Definition close_h (h : path) : M unit := λ w, (Ok tt, emit (EvClose h) w).

(** ** Workspace: [delete_dir] and [make_dir]

    [pathlib.Path(f'./{dirname}')] for a [dirname] of one segment, which is
    what every caller passes (the values of [Dirs]). *)

Definition Path (dirname : string) : path := [dirname].

Definition delete_dir (dirname : string) : M unit :=
  let dirpath := Path dirname in
  e <- exists_ dirpath ;;
  if e : bool then rmtree dirpath else ret tt.

Definition make_dir (dirname : string) : M unit :=
  let dirpath := Path dirname in
  mkdir dirpath true true.

(** One round of the loop that opens [test]. *)
Definition reset (dirname : string) : M unit :=
  delete_dir dirname ;; make_dir dirname.

(** ** Random chunks *)

Definition ascii_uppercase : string := "ABCDEFGHIJKLMNOPQRSTUVWXYZ".
Definition digits : string := "0123456789".

(** [random.random()]: the next 53-bit numerator [r], standing for the float
    [r / 2^53] in [0, 1).  Arithmetic on these floats is taken to be exact. *)
Definition random : M N := λ w,
  (Ok (rng w (ndrawn w) `mod` 2 ^ 53)%N,
   World (fs w) (log w) (now w) (ticks w) (nticks w) (rng w) (S (ndrawn w))
         (sched w) (nsched w)).

(** [[body for _ in range(k)]]; a negative [k] gives the empty list. *)
Fixpoint repeat_M {A} (k : nat) (body : M A) : M (list A) :=
  match k with
  | O => ret []
  | S k' => x <- body ;; xs <- repeat_M k' body ;; ret (x :: xs)
  end.

(** [random.choices(population, k=k)]:
    [[population[floor(random() * n)] for i in repeat(None, k)]]. *)
Definition choices (population : string) (k : Z) : M (list ascii) :=
  let n := N.of_nat (String.length population) in
  repeat_M (Z.to_nat k)
    (r <- random ;;
     match String.get (N.to_nat (r * n / 2 ^ 53)) population with
     | Some c => ret c
     | None => raise IndexError
     end).

(** [random_string(count=5, chars=string.ascii_uppercase + string.digits)] *)
Definition random_string (count : Z) (chars : string) : M string :=
  cs <- choices chars count ;;
  ret (string_of_list_ascii cs).

Definition random_string_default_chars : string := ascii_uppercase +:+ digits.

(** [generate_random_chunks(n, chunk_size=1024)] *)
Definition generate_random_chunks (n : Z) (chunk_size : Z) : M (list string) :=
  repeat_M (Z.to_nat n) (random_string chunk_size random_string_default_chars).

(** ** Timer: [perf_manager] and [timeit] *)

(** [time.perf_counter()].  Readings are whole nanoseconds rather than float
    seconds; a read finds the clock advanced by a non-negative amount. *)
Definition perf_counter : M N := λ w,
  let t := (now w + ticks w (nticks w))%N in
  (Ok t,
   World (fs w) (log w) t (ticks w) (S (nticks w)) (rng w) (ndrawn w)
         (sched w) (nsched w)).

Definition digit_char (d : N) : ascii :=
  match d with
  | 0 => "0" | 1 => "1" | 2 => "2" | 3 => "3" | 4 => "4"
  | 5 => "5" | 6 => "6" | 7 => "7" | 8 => "8" | _ => "9"
  end%N%char.

(** The six digits after the decimal point of [ns] nanoseconds written in
    milliseconds. *)
Definition frac6 (ns : N) : string :=
  let r := (ns `mod` 1000000)%N in
  string_of_list_ascii
    (map (λ k, digit_char ((r `div` 10 ^ k) `mod` 10)%N) [5; 4; 3; 2; 1; 0]%N).

(** [f'{time_delta:.6f}'] for [time_delta = ns * 10**-6] milliseconds. *)
Definition format_6f (ns : N) : string :=
  pretty (ns `div` 1000000)%N +:+ "." +:+ frac6 ns.

(** [with perf_manager(description): body] *)
Definition perf_manager {A} (description : string) (body : M A) : M A :=
  start_time <- perf_counter ;;
  try_finally body
    (finish_time <- perf_counter ;;
     let time_delta := (finish_time - start_time)%N in
     print (description +:+ ": " +:+ format_6f time_delta +:+ " ms")).

(** [timeit(description, sync)(func)]: [wrapper] calls [func], [wrapper_async]
    awaits it; awaiting a coroutine runs it to its end before going on. *)
Definition timeit {A B} (description : string) (sync : bool) (func : A → M B) : A → M B :=
  let wrapper := λ args, perf_manager description (func args) in
  let wrapper_async := λ args, perf_manager description (func args) in
  if sync then wrapper else wrapper_async.

(** ** The four output directories *)

Inductive Dirs : Type := AIOFILES | AIOFILE | FILE | EXECUTOR.

#[global] Instance Dirs_eq_dec : EqDecision Dirs.
Proof. solve_decision. Defined.

Definition value (d : Dirs) : string :=
  match d with
  | AIOFILES => "aiofiles"
  | AIOFILE => "aiofile"
  | FILE => "file"
  | EXECUTOR => "executor"
  end.

Definition name (d : Dirs) : string :=
  match d with
  | AIOFILES => "AIOFILES"
  | AIOFILE => "AIOFILE"
  | FILE => "FILE"
  | EXECUTOR => "EXECUTOR"
  end.

(** [f'{d}']: a plain [enum.Enum] member formats as its qualified name. *)
Definition str (d : Dirs) : string := "Dirs." +:+ name d.

(** [for dirname in Dirs] visits the members in definition order. *)
Definition all_Dirs : list Dirs := [AIOFILES; AIOFILE; FILE; EXECUTOR].

(** ** Write strategies *)

(** [f'./{dir_name}/{idx}.txt'] *)
Definition file_name (dir_name : string) (idx : nat) : path :=
  [dir_name; pretty idx +:+ ".txt"].

(** [for idx, chunk in enumerate(chunks): body] *)
Fixpoint for_enumerate (body : nat → string → M unit) (idx : nat)
    (chunks : list string) : M unit :=
  match chunks with
  | [] => ret tt
  | chunk :: rest => body idx chunk ;; for_enumerate body (S idx) rest
  end.

(** [with enter as f: body]; the exit runs on both outcomes of the body. *)
Definition with_ {H A} (enter : M H) (exit : H → M unit) (body : H → M A) : M A :=
  f <- enter ;; try_finally (body f) (exit f).

(** [aiofiles]: open, write and close are each handed to a thread and awaited. *)
Definition aiofiles_open (p : path) : M path := open_w p.
Definition aiofiles_write (f : path) (data : string) : M unit := write_h f data.
Definition aiofiles_close (f : path) : M unit := close_h f.

(** [aiofile.AIOFile]: [write(data, offset=0)]. *)
Definition AIOFile_open (p : path) : M path := open_w p.
Definition AIOFile_write (f : path) (data : string) : M unit := write_h f data.
Definition AIOFile_close (f : path) : M unit := close_h f.

Definition test_aiofiles : list string → M unit :=
  timeit (str AIOFILES) false (λ chunks,
    let dir_name := value AIOFILES in
    for_enumerate (λ idx chunk,
      with_ (aiofiles_open (file_name dir_name idx)) aiofiles_close
        (λ f, aiofiles_write f chunk)) 0 chunks).

Definition test_aiofile : list string → M unit :=
  timeit (str AIOFILE +:+ " ") false (λ chunks,
    let dir_name := value AIOFILE in
    for_enumerate (λ idx chunk,
      with_ (AIOFile_open (file_name dir_name idx)) AIOFile_close
        (λ f, AIOFile_write f chunk)) 0 chunks).

Definition write_file (file_name : path) (data : string) : M unit :=
  with_ (open_w file_name) close_h (λ f, write_h f data).

Definition test_file : list string → M unit :=
  timeit (str FILE +:+ "    ") true (λ chunks,
    let dir_name := value FILE in
    for_enumerate (λ idx chunk, write_file (file_name dir_name idx) chunk) 0 chunks).

(** ** The thread pool

    [executor = ThreadPoolExecutor(max_workers=3)].  A submitted
    [write_file(file, data)] is a task that advances through three calls:
    open, write, close.  Queued tasks start in submission order, at most
    [max_workers] are between their open and their close at any time, and
    which of the runnable ones advances next is the scheduler's choice. *)

Definition max_workers : nat := 3.

Record task : Type := Task {
  t_file : path;
  t_data : string;
  (** 0: queued, 1: opened, 2: written, 3: finished *)
  t_pc : nat
}.

Definition in_flight (t : task) : bool := (t_pc t =? 1)%nat || (t_pc t =? 2)%nat.
Definition queued (t : task) : bool := (t_pc t =? 0)%nat.

Fixpoint indices_where (f : task → bool) (i : nat) (ts : list task) : list nat :=
  match ts with
  | [] => []
  | t :: ts' => (if f t then [i] else []) ++ indices_where f (S i) ts'
  end.

Definition runnable (workers : nat) (ts : list task) : list nat :=
  let busy := indices_where in_flight 0 ts in
  busy ++ (if (length busy <? workers)%nat then take 1 (indices_where queued 0 ts) else []).

(** One call of a task.  A failing open finishes the task with its exception;
    the [with] block's exit closes the file after the write. *)
Definition step_task (t : task) : world → (task * option exn) * world := λ w,
  match t_pc t with
  | 0 =>
      match open_w (t_file t) w with
      | (Ok _, w1) => ((Task (t_file t) (t_data t) 1, None), w1)
      | (Raise e, w1) => ((Task (t_file t) (t_data t) 3, Some e), w1)
      end
  | 1 =>
      match write_h (t_file t) (t_data t) w with
      | (Ok _, w1) => ((Task (t_file t) (t_data t) 2, None), w1)
      | (Raise e, w1) => ((Task (t_file t) (t_data t) 2, Some e), w1)
      end
  | 2 =>
      match close_h (t_file t) w with
      | (Ok _, w1) => ((Task (t_file t) (t_data t) 3, None), w1)
      | (Raise e, w1) => ((Task (t_file t) (t_data t) 3, Some e), w1)
      end
  | _ => ((t, None), w)
  end.

Definition next_choice (w : world) : nat * world :=
  (sched w (nsched w),
   World (fs w) (log w) (now w) (ticks w) (nticks w) (rng w) (ndrawn w)
         (sched w) (S (nsched w))).

Definition first_error (err new : option exn) : option exn :=
  match err with Some e => Some e | None => new end.

(** The pool runs until no task is runnable; every round advances one task by
    one call, so three rounds per task are enough. *)
Fixpoint run_pool (fuel : nat) (ts : list task) (err : option exn)
    : world → (list task * option exn) * world := λ w,
  match fuel with
  | O => ((ts, err), w)
  | S fuel' =>
      let rl := runnable max_workers ts in
      match rl with
      | [] => ((ts, err), w)
      | _ :: _ =>
          let '(c, w0) := next_choice w in
          match rl !! (c `mod` length rl) with
          | Some i =>
              match ts !! i with
              | Some t =>
                  let '((t', e), w1) := step_task t w0 in
                  run_pool fuel' (<[i := t']> ts) (first_error err e) w1
              | None => ((ts, err), w0)
              end
          | None => ((ts, err), w0)
          end
      end
  end.

(** [[ioloop.run_in_executor(executor, partial(write_file, ..., chunk))
      for idx, chunk in enumerate(chunks)]] *)
Fixpoint submit_all (dir_name : string) (idx : nat) (chunks : list string) : list task :=
  match chunks with
  | [] => []
  | chunk :: rest => Task (file_name dir_name idx) chunk 0 :: submit_all dir_name (S idx) rest
  end.

(** [await asyncio.gather] of all the futures: resumes when the tasks are finished, with
    the first exception one of them raised, if any.  The pool is run to
    quiescence before the exception is delivered. *)
Definition gather (coros : list task) : M unit := λ w,
  match run_pool (3 * length coros) coros None w with
  | ((_, None), w1) => (Ok tt, w1)
  | ((_, Some e), w1) => (Raise e, w1)
  end.

Definition test_executor : list string → M unit :=
  timeit (str EXECUTOR) false (λ chunks,
    let dir_name := value EXECUTOR in
    let coros := submit_all dir_name 0 chunks in
    gather coros).

(** ** Harness *)

Fixpoint for_each {A} (body : A → M unit) (l : list A) : M unit :=
  match l with
  | [] => ret tt
  | x :: l' => body x ;; for_each body l'
  end.

Definition test (chunks : list string) : M unit :=
  for_each (λ dirname, delete_dir (value dirname) ;; make_dir (value dirname))
           all_Dirs ;;
  test_aiofiles chunks ;;
  test_aiofile chunks ;;
  test_executor chunks ;;
  test_file chunks ;;
  for_each (λ dirname, delete_dir (value dirname)) all_Dirs.

(** [main()].  Driving the event loop ([run_until_complete]) runs the
    coroutine to its end; shutting the loop down touches nothing modelled. *)
Definition main : M unit :=
  let '(n, chunk_size) := (10, 1024 * 10)%Z in
  print ("n=" +:+ pretty n +:+ ", chunk_size=" +:+ pretty chunk_size) ;;
  chunks <- generate_random_chunks n chunk_size ;;
  try_finally (test chunks) (print "Exited").

(** Worlds to run examples in: the given working directory, a clock that
    advances 1234567 ns between reads, and simple draw and scheduling streams. *)
Definition demo_world (m : gmap string node) : world :=
  World m [] 0%N (λ _, 1234567%N) 0
        (λ k, (N.of_nat k * 1000003 * 2 ^ 40 + 12345)%N) 0
        (λ k, k * 7 + 1) 0.

Definition plain_world (m : gmap string node) : world :=
  World m [] 0%N (λ _, 1234567%N) 0 (λ _, (2 ^ 52 + 12345)%N) 0 (λ _, 1) 0.

(** ** Vocabulary of the statements *)

Definition with_fs_log (m : gmap string node) (l : list (event * gmap string node))
    (w : world) : world :=
  World m l (now w) (ticks w) (nticks w) (rng w) (ndrawn w) (sched w) (nsched w).

(** The world after [k] more draws from the random generator. *)
Definition drawn (k : nat) (w : world) : world :=
  World (fs w) (log w) (now w) (ticks w) (nticks w) (rng w) (k + ndrawn w)
        (sched w) (nsched w).

(** The world after one more read of the clock. *)
Definition clock_read (w : world) : world := (perf_counter w).2.

(** Every directory of the working directory [m] is still one in [m']. *)
Definition keeps_dirs (m m' : gmap string node) : Prop :=
  ∀ k, is_dir (m !! k) = true → is_dir (m' !! k) = true.

(** No output directory's name is taken by a regular file. *)
Definition labels_free (m : gmap string node) : Prop :=
  ∀ d : Dirs, is_file (m !! value d) = false.

Definition all_labels_dirs (m : gmap string node) : Prop :=
  ∀ d : Dirs, is_dir (m !! value d) = true.

(** The directory a strategy is to leave behind: [i.txt] holds [chunks[i]]. *)
Fixpoint files_from (idx : nat) (chunks : list string) : gmap string node :=
  match chunks with
  | [] => ∅
  | chunk :: rest => <[pretty idx +:+ ".txt" := File chunk]> (files_from (S idx) rest)
  end.

Definition expected_files (chunks : list string) : gmap string node :=
  files_from 0 chunks.

(** The calls of a loop that writes one file after the other. *)
Fixpoint write_events (dir_name : string) (idx : nat) (chunks : list string) : list event :=
  match chunks with
  | [] => []
  | chunk :: rest =>
      [EvOpen (file_name dir_name idx); EvWrite (file_name dir_name idx) chunk;
       EvClose (file_name dir_name idx)] ++ write_events dir_name (S idx) rest
  end.

(** A call on a file directly under [dir_name]. *)
Definition file_event_in (dir_name : string) (e : event) : Prop :=
  match e with
  | EvOpen [d; _] | EvWrite [d; _] _ | EvClose [d; _] => d = dir_name
  | _ => False
  end.

Definition strategy (d : Dirs) : list string → M unit :=
  match d with
  | AIOFILES => test_aiofiles
  | AIOFILE => test_aiofile
  | FILE => test_file
  | EXECUTOR => test_executor
  end.

(** The label a strategy's timer prints. *)
Definition timer_label (d : Dirs) : string :=
  match d with
  | AIOFILES => "Dirs.AIOFILES"
  | AIOFILE => "Dirs.AIOFILE "
  | FILE => "Dirs.FILE    "
  | EXECUTOR => "Dirs.EXECUTOR"
  end.

Definition timer_line (label : string) (ns : N) : string :=
  label +:+ ": " +:+ format_6f ns +:+ " ms".

Definition is_digit (c : ascii) : bool :=
  (48 <=? nat_of_ascii c)%nat && (nat_of_ascii c <=? 57)%nat.

Definition is_upper (c : ascii) : bool :=
  (65 <=? nat_of_ascii c)%nat && (nat_of_ascii c <=? 90)%nat.

(** The alphabet {A-Z, 0-9}. *)
Definition in_alphabet (c : ascii) : bool := is_upper c || is_digit c.

(** The name of the file a strategy writes chunk [idx] to. *)
Definition entry_name (idx : nat) : string := pretty idx +:+ ".txt".

(** No file a strategy is to write has its name taken by a directory. *)
Definition no_clash (m : gmap string node) : Prop :=
  ∀ idx, is_dir (m !! entry_name idx) = false.

(** What a task of the pool has left in its directory so far. *)
Definition pool_cell (t : task) : option node :=
  match t_pc t with
  | 0 => None
  | 1 => Some (File "")
  | _ => Some (File (t_data t))
  end.

(** The pool's tasks against their directory [dm]: task [i] is the write of
    [chunks[i]] to [i.txt] under [d], and the directory holds what the tasks
    have left there and nothing else. *)
Definition pool_dir_inv (d : string) (chunks : list string) (ts : list task)
    (dm : gmap string node) : Prop :=
  length ts = length chunks ∧
  (∀ i t, ts !! i = Some t →
     t_file t = file_name d i ∧ chunks !! i = Some (t_data t) ∧
     (t_pc t ≤ 3)%nat ∧ dm !! entry_name i = pool_cell t) ∧
  (∀ s, (∀ i, i < length ts → s ≠ entry_name i) → dm !! s = None).

(** ... and the rest of the working directory [m0] is untouched. *)
Definition pool_inv (d : string) (m0 : gmap string node) (chunks : list string)
    (ts : list task) (m : gmap string node) : Prop :=
  ∃ dm, m = <[d := Dir dm]> m0 ∧ pool_dir_inv d chunks ts dm.

(** The calls a task has made so far. *)
Definition done_events (t : task) : list event :=
  take (t_pc t) [EvOpen (t_file t); EvWrite (t_file t) (t_data t); EvClose (t_file t)].

(** Calls a task still has to make. *)
Definition remaining (ts : list task) : nat :=
  sum_list (map (λ t, 3 - t_pc t) ts).

(** The calls of the loop that opens [test], from working directory [m]:
    per label, an [rmtree] when the directory was there, then a [mkdir]. *)
Definition reset_events (m : gmap string node) : list event :=
  flat_map (λ d, (if is_dir (m !! value d) then [EvRmtree [value d]] else []) ++
                 [EvMkdir [value d]]) all_Dirs.

(** The calls of the loop that closes [test]. *)
Definition cleanup_events : list event := map (λ d, EvRmtree [value d]) all_Dirs.

Definition after_reset (m : gmap string node) : gmap string node :=
  foldl (λ m d, <[value d := Dir ∅]> m) m all_Dirs.

Definition after_cleanup (m : gmap string node) : gmap string node :=
  foldl (λ m d, delete (value d) m) m all_Dirs.

(** The stretch of the log one strategy makes: calls on files of its own
    directory, the same calls as the sequential loop's up to their order (and
    in that very order for a sequential strategy), then the line of its
    timer. *)
Definition strategy_run (d : Dirs) (chunks : list string)
    (l : list (event * gmap string node)) : Prop :=
  ∃ l0 t m,
    l = l0 ++ [(EvPrint (timer_line (timer_label d) t), m)] ∧
    Forall (λ e, file_event_in (value d) e.1) l0 ∧
    l0.*1 ≡ₚ write_events (value d) 0 chunks ∧
    (d ≠ EXECUTOR → l0.*1 = write_events (value d) 0 chunks).

(** Calls that create or remove a directory. *)
Definition workspace_event (e : event) : Prop :=
  match e with EvRmtree _ | EvMkdir _ => True | _ => False end.

Definition print_event (e : event) : Prop :=
  match e with EvPrint _ => True | _ => False end.

(** The first label, in the order [test] resets them, whose name is held by
    a regular file. *)
Definition first_blocked (m : gmap string node) : option Dirs :=
  List.find (λ d, is_file (m !! value d)) all_Dirs.

(** Counting calls of one kind, and selecting the calls on one path. *)
Definition is_open (e : event) : bool :=
  match e with EvOpen _ => true | _ => false end.

Definition is_close (e : event) : bool :=
  match e with EvClose _ => true | _ => false end.

Fixpoint count_events (f : event → bool) (evs : list event) : nat :=
  match evs with
  | [] => 0
  | e :: evs' => (if f e then 1 else 0) + count_events f evs'
  end.

Definition event_path (e : event) : option path :=
  match e with
  | EvRmtree p | EvMkdir p | EvOpen p | EvWrite p _ | EvClose p => Some p
  | EvPrint _ => None
  end.

Fixpoint events_on (p : path) (evs : list event) : list event :=
  match evs with
  | [] => []
  | e :: evs' =>
      if bool_decide (event_path e = Some p) then e :: events_on p evs'
      else events_on p evs'
  end.

(** Tasks of the pool that are between their open and their close. *)
Definition busy (ts : list task) : nat := length (indices_where in_flight 0 ts).

(** ** Paths of one and two segments *)

Lemma stat_at_1 d w :
  stat_at [d] w = match fs w !! d with Some n => Found n | None => Missing end.
Proof. reflexivity. Qed.

Lemma stat_at_2 d f w :
  stat_at [d; f] w =
    match fs w !! d with
    | Some (Dir m) => match m !! f with Some n => Found n | None => Missing end
    | Some (File _) => Blocked
    | None => Missing
    end.
Proof.
  unfold stat_at; simpl. destruct (fs w !! d) as [[?|m]|]; try reflexivity.
Qed.

Lemma stat_below_missing d p (m : gmap string node) :
  m !! d = None → stat_path (d :: p) (Dir m) = Missing.
Proof. intros H; simpl. by rewrite H. Qed.

Lemma update_path_2 f d n (m m' : gmap string node) :
  m !! d = Some (Dir m') →
  update_path f [d; n] m = <[d := Dir (partial_alter f n m')]> m.
Proof. intros H; simpl. by rewrite H. Qed.

Lemma world_eta w :
  World (fs w) (log w) (now w) (ticks w) (nticks w) (rng w) (ndrawn w)
        (sched w) (nsched w) = w.
Proof. by destruct w. Qed.

(** ** Workspace *)

Lemma delete_dir_absent dirname w :
  fs w !! dirname = None → delete_dir dirname w = (Ok tt, w).
Proof.
  intros H. unfold delete_dir, bind, exists_, Path. rewrite stat_at_1, H. reflexivity.
Qed.

Lemma delete_dir_present dirname m w :
  fs w !! dirname = Some (Dir m) →
  delete_dir dirname w =
    (Ok tt, with_fs_log (delete dirname (fs w))
              (log w ++ [(EvRmtree [dirname], delete dirname (fs w))]) w).
Proof.
  intros H. unfold delete_dir, bind, exists_, Path. rewrite stat_at_1, H.
  unfold rmtree. rewrite stat_at_1, H. reflexivity.
Qed.

Lemma delete_dir_regular_file dirname data w :
  fs w !! dirname = Some (File data) →
  delete_dir dirname w = (Raise (NotADirectoryError [dirname]), w).
Proof.
  intros H. unfold delete_dir, bind, exists_, Path. rewrite stat_at_1, H.
  unfold rmtree. rewrite stat_at_1, H. reflexivity.
Qed.

Lemma make_dir_absent dirname w :
  fs w !! dirname = None →
  make_dir dirname w =
    (Ok tt, with_fs_log (<[dirname := Dir ∅]> (fs w))
              (log w ++ [(EvMkdir [dirname], <[dirname := Dir ∅]> (fs w))]) w).
Proof.
  intros H. unfold make_dir, mkdir, Path. simpl.
  unfold os_mkdir. rewrite stat_at_1, H. reflexivity.
Qed.

Lemma make_dir_present dirname m w :
  fs w !! dirname = Some (Dir m) → make_dir dirname w = (Ok tt, w).
Proof.
  intros H. unfold make_dir, mkdir, Path. simpl.
  unfold os_mkdir. rewrite stat_at_1, H.
  unfold is_dir_. rewrite stat_at_1, H. reflexivity.
Qed.

Lemma reset_ok dirname w :
  is_file (fs w !! dirname) = false →
  reset dirname w =
    (Ok tt,
     with_fs_log (<[dirname := Dir ∅]> (fs w))
       (log w ++
        (if is_dir (fs w !! dirname)
         then [(EvRmtree [dirname], delete dirname (fs w))] else []) ++
        [(EvMkdir [dirname], <[dirname := Dir ∅]> (fs w))]) w).
Proof.
  intros Hfree. unfold reset, bind.
  destruct (fs w !! dirname) as [[data|m]|] eqn:Hd; [done| |].
  - rewrite (delete_dir_present _ m) by done.
    rewrite make_dir_absent by (simpl; apply lookup_delete_eq).
    simpl. unfold with_fs_log; simpl.
    rewrite insert_delete_eq, <- app_assoc. reflexivity.
  - rewrite delete_dir_absent by done. rewrite make_dir_absent by done.
    reflexivity.
Qed.

(** C8, as the code has it. [delete_dir] on a label at whose path nothing
    exists returns normally and leaves the world as it was; on a label whose
    directory exists it returns normally having removed the directory with
    everything below it (no path through it resolves any more), by a single
    [rmtree], and touches no other entry of the working directory. *)
Theorem delete_dir_absent_or_recursive (d : Dirs) (w : world) :
  (fs w !! value d = None → delete_dir (value d) w = (Ok tt, w)) ∧
  (∀ m, fs w !! value d = Some (Dir m) →
     ∃ w', delete_dir (value d) w = (Ok tt, w') ∧
           fs w' = delete (value d) (fs w) ∧
           (∀ p, stat_at (value d :: p) w' = Missing) ∧
           log w' = log w ++ [(EvRmtree [value d], fs w')]).
Proof.
  split.
  - apply delete_dir_absent.
  - intros m Hm. eexists. split; [by apply (delete_dir_present _ m)|].
    simpl. repeat split.
    intros p. apply stat_below_missing. simpl. apply lookup_delete_eq.
Qed.

Lemma delete_dir_absent_or_recursive_witness :
  delete_dir (value AIOFILES)
    (plain_world {["file" := Dir {["0.txt" := File "AB"]}]}) =
    (Ok tt, plain_world {["file" := Dir {["0.txt" := File "AB"]}]}) ∧
  ∃ w', delete_dir (value FILE)
          (plain_world {["file" := Dir {["0.txt" := File "AB"]}]}) = (Ok tt, w') ∧
        fs w' = delete (value FILE) {["file" := Dir {["0.txt" := File "AB"]}]} ∧
        (∀ p, stat_at (value FILE :: p) w' = Missing) ∧
        log w' = [] ++ [(EvRmtree [value FILE], fs w')].
Proof.
  split.
  - apply (proj1 (delete_dir_absent_or_recursive AIOFILES _)). reflexivity.
  - exact (proj2 (delete_dir_absent_or_recursive FILE
                    (plain_world {["file" := Dir {["0.txt" := File "AB"]}]}))
             {["0.txt" := File "AB"]} eq_refl).
Defined.

(** C8 as stated fails: a label whose name is held by a regular file has no
    directory either, and there [delete_dir] raises. *)
Lemma delete_dir_raises_where_no_directory_exists :
  is_dir (fs (plain_world {["file" := File "x"]}) !! value FILE) = false ∧
  delete_dir (value FILE) (plain_world {["file" := File "x"]}) =
    (Raise (NotADirectoryError ["file"]), plain_world {["file" := File "x"]}).
Proof. split; reflexivity. Qed.

(** C3, as the code has it. When the label's name is not taken by a regular
    file, [reset] twice in a row returns normally both times, each time leaving
    an empty directory at the label's path and every other entry of the
    working directory as it was; the second round changes nothing in the file
    system. *)
Theorem reset_twice (d : Dirs) (w : world) :
  is_file (fs w !! value d) = false →
  ∃ w1 w2,
    reset (value d) w = (Ok tt, w1) ∧
    reset (value d) w1 = (Ok tt, w2) ∧
    fs w1 !! value d = Some (Dir ∅) ∧
    fs w2 !! value d = Some (Dir ∅) ∧
    fs w1 = <[value d := Dir ∅]> (fs w) ∧
    fs w2 = fs w1.
Proof.
  intros Hfree.
  eexists _, _. split; [by apply reset_ok|].
  split; [apply reset_ok; simpl; by rewrite lookup_insert_eq|].
  simpl. rewrite insert_insert_eq, !lookup_insert_eq. done.
Qed.

Lemma reset_twice_witness :
  ∃ w1 w2,
    reset (value FILE) (plain_world {["file" := Dir {["0.txt" := File "AB"]}]})
      = (Ok tt, w1) ∧
    reset (value FILE) w1 = (Ok tt, w2) ∧
    fs w1 !! value FILE = Some (Dir ∅) ∧
    fs w2 !! value FILE = Some (Dir ∅) ∧
    fs w1 = <[value FILE := Dir ∅]> {["file" := Dir {["0.txt" := File "AB"]}]} ∧
    fs w2 = fs w1.
Proof.
  exact (reset_twice FILE
           (plain_world {["file" := Dir {["0.txt" := File "AB"]}]}) eq_refl).
Defined.

(** C3 as stated fails: with a regular file at the label's path the first
    round already raises. *)
Lemma reset_raises_on_regular_file :
  reset (value AIOFILES) (plain_world {["aiofiles" := File "x"]}) =
    (Raise (NotADirectoryError ["aiofiles"]), plain_world {["aiofiles" := File "x"]}).
Proof. reflexivity. Qed.

(** ** Timer *)

Lemma stdout_emit_print line w : stdout (emit (EvPrint line) w) = stdout w ++ [line].
Proof. unfold stdout, prints, emit; simpl. rewrite omap_app. reflexivity. Qed.

Lemma perf_manager_outcome {A} description (body : M A) w :
  perf_manager description body w =
    let start_time := now (clock_read w) in
    let '(r, w1) := body (clock_read w) in
    (r, emit (EvPrint (timer_line description (now (clock_read w1) - start_time)))
          (clock_read w1)).
Proof.
  unfold perf_manager, bind, try_finally, clock_read. simpl.
  destruct (body _) as [r w1]. reflexivity.
Qed.

Lemma timeit_unfold {A B} description sync (func : A → M B) args :
  timeit description sync func args = perf_manager description (func args).
Proof. unfold timeit. by destruct sync. Qed.

(** C4. Whatever the wrapped function does from the world in which the timer
    has read its start time, [timeit] ends with the same outcome: the value it
    returned, or the exception it raised.  In both cases exactly one line, the
    elapsed time under the timer's description, has been printed after the
    function ended, and nothing else distinguishes the final world from the
    function's own. *)
Theorem timeit_keeps_outcome_and_prints {A B} (description : string) (sync : bool)
    (func : A → M B) (args : A) (w : world) :
  let '(r, w1) := func args (clock_read w) in
  let line := timer_line description (now (clock_read w1) - now (clock_read w)) in
  timeit description sync func args w = (r, emit (EvPrint line) (clock_read w1)) ∧
  stdout (timeit description sync func args w).2 = stdout w1 ++ [line].
Proof.
  rewrite timeit_unfold, perf_manager_outcome. simpl.
  destruct (func args (clock_read w)) as [r w1]. split; [reflexivity|].
  simpl. rewrite stdout_emit_print. reflexivity.
Qed.

(** A strategy that fails: without its directory [test_file] raises at the
    first open, and the timer's line is printed all the same. *)
Example test_file_raises_and_prints :
  let r := test_file ["AB"] (plain_world ∅) in
  r.1 = Raise (FileNotFoundError ["file"; "0.txt"]) ∧
  stdout r.2 = ["Dirs.FILE    : 1.234567 ms"].
Proof. vm_compute. split; reflexivity. Qed.

(** ** Random chunks *)

Lemma drawn_0 w : drawn 0 w = w.
Proof. apply world_eta. Qed.

Lemma drawn_drawn a b w : drawn a (drawn b w) = drawn (b + a) w.
Proof. unfold drawn; simpl. f_equal. lia. Qed.

Lemma repeat_M_draws {A} (body : M A) (P : A → Prop) (c : nat) :
  (∀ w, ∃ a, body w = (Ok a, drawn c w) ∧ P a) →
  ∀ k w, ∃ l, repeat_M k body w = (Ok l, drawn (k * c) w) ∧
              length l = k ∧ Forall P l.
Proof.
  intros Hbody. induction k as [|k IH]; intros w.
  - exists []. simpl. rewrite drawn_0. by repeat split.
  - destruct (Hbody w) as (a & Ha & HP).
    destruct (IH (drawn c w)) as (l & Hl & Hlen & HF).
    exists (a :: l). simpl. unfold bind at 1. rewrite Ha.
    unfold bind at 1. rewrite Hl. unfold ret. rewrite drawn_drawn.
    split; [do 2 f_equal; lia|].
    split; [simpl; lia|by constructor].
Qed.

Lemma get_in_range (s : string) (i : nat) :
  i < String.length s →
  ∃ c, String.get i s = Some c ∧ c ∈ list_ascii_of_string s.
Proof.
  revert i. induction s as [|a s IH]; intros i Hi; simpl in *; [lia|].
  destruct i as [|i].
  - exists a. split; [done|]. apply list_elem_of_here.
  - destruct (IH i) as (c & Hc & Hin); [lia|].
    exists c. split; [done|]. by apply list_elem_of_further.
Qed.

Lemma scaled_index_in_range (r n : N) :
  (r < 2 ^ 53)%N → (0 < n)%N → (r * n / 2 ^ 53 < n)%N.
Proof.
  intros Hr Hn. apply N.Div0.div_lt_upper_bound. nia.
Qed.

Lemma random_draws_one w :
  random w = (Ok (rng w (ndrawn w) `mod` 2 ^ 53)%N, drawn 1 w).
Proof. reflexivity. Qed.

Lemma choices_ok (population : string) (k : Z) (w : world) :
  0 < String.length population →
  ∃ cs, choices population k w = (Ok cs, drawn (Z.to_nat k) w) ∧
        length cs = Z.to_nat k ∧
        Forall (λ c, c ∈ list_ascii_of_string population) cs.
Proof.
  intros Hpop. unfold choices.
  destruct (repeat_M_draws
    (r <- random ;;
     match String.get (N.to_nat (r * N.of_nat (String.length population) / 2 ^ 53))
             population with
     | Some c => ret c
     | None => raise IndexError
     end) (λ c, c ∈ list_ascii_of_string population) 1) with (k := Z.to_nat k) (w := w)
    as (l & Hl & Hlen & HF).
  - intros w0. unfold bind. rewrite random_draws_one.
    destruct (get_in_range population
      (N.to_nat ((rng w0 (ndrawn w0) `mod` 2 ^ 53) * N.of_nat (String.length population)
                 / 2 ^ 53))) as (c & Hc & Hin).
    + pose proof (scaled_index_in_range (rng w0 (ndrawn w0) `mod` 2 ^ 53)
                    (N.of_nat (String.length population))) as Hb.
      assert (rng w0 (ndrawn w0) `mod` 2 ^ 53 < 2 ^ 53)%N
        by (apply N.mod_lt; discriminate).
      lia.
    + exists c. rewrite Hc. by split.
  - exists l. rewrite Nat.mul_1_r in Hl. by repeat split.
Qed.

Lemma length_string_of_list_ascii (cs : list ascii) :
  String.length (string_of_list_ascii cs) = length cs.
Proof. induction cs as [|c cs IH]; simpl; by f_equal. Qed.

Lemma default_chars_in_alphabet :
  Forall (λ c, in_alphabet c = true) (list_ascii_of_string random_string_default_chars).
Proof. repeat constructor. Qed.

Lemma random_string_ok (count : Z) (w : world) :
  ∃ s, random_string count random_string_default_chars w
         = (Ok s, drawn (Z.to_nat count) w) ∧
       String.length s = Z.to_nat count ∧
       Forall (λ c, in_alphabet c = true) (list_ascii_of_string s).
Proof.
  destruct (choices_ok random_string_default_chars count w) as (cs & Hcs & Hlen & HF).
  { vm_compute. lia. }
  exists (string_of_list_ascii cs). unfold random_string, bind. rewrite Hcs.
  split; [reflexivity|]. split; [by rewrite length_string_of_list_ascii|].
  rewrite list_ascii_of_string_of_list_ascii.
  eapply Forall_impl; [exact HF|]. intros c Hc. simpl in Hc.
  pose proof default_chars_in_alphabet as Hall.
  rewrite Forall_forall in Hall. by apply Hall.
Qed.

Lemma generate_random_chunks_ok (n chunk_size : Z) (w : world) :
  ∃ chunks,
    generate_random_chunks n chunk_size w
      = (Ok chunks, drawn (Z.to_nat n * Z.to_nat chunk_size) w) ∧
    length chunks = Z.to_nat n ∧
    Forall (λ s, String.length s = Z.to_nat chunk_size ∧
                 Forall (λ c, in_alphabet c = true) (list_ascii_of_string s)) chunks.
Proof.
  unfold generate_random_chunks. apply repeat_M_draws.
  intros w0. destruct (random_string_ok chunk_size w0) as (s & Hs & Hlen & HF).
  exists s. by repeat split.
Qed.

(** C2, as the code has it. For non-negative [count] and [size],
    [generate_random_chunks] returns normally a list of exactly [count]
    strings, each of exactly [size] characters, every character in {A-Z, 0-9}.
    It does no I/O: the file system, the event log with the console, the clock
    and the thread pool are as before.  The one thing it changes is the
    process-wide random generator, advanced by [count * size] draws. *)
Theorem generate_random_chunks_spec (count size : Z) (w : world) :
  (0 ≤ count)%Z → (0 ≤ size)%Z →
  ∃ chunks,
    generate_random_chunks count size w
      = (Ok chunks, drawn (Z.to_nat (count * size)) w) ∧
    Z.of_nat (length chunks) = count ∧
    Forall (λ s, Z.of_nat (String.length s) = size ∧
                 Forall (λ c, in_alphabet c = true) (list_ascii_of_string s)) chunks.
Proof.
  intros Hc Hs.
  destruct (generate_random_chunks_ok count size w) as (chunks & Hrun & Hlen & HF).
  exists chunks. rewrite Z2Nat.inj_mul by done. split; [done|]. split; [lia|].
  eapply Forall_impl; [exact HF|]. intros s [Hl Ha]. split; [lia|done].
Qed.

Lemma generate_random_chunks_spec_witness :
  ∃ chunks,
    generate_random_chunks 3 4 (demo_world ∅)
      = (Ok chunks, drawn (Z.to_nat (3 * 4)) (demo_world ∅)) ∧
    Z.of_nat (length chunks) = 3%Z ∧
    Forall (λ s, Z.of_nat (String.length s) = 4%Z ∧
                 Forall (λ c, in_alphabet c = true) (list_ascii_of_string s)) chunks.
Proof.
  apply (generate_random_chunks_spec 3 4 (demo_world ∅)); lia.
Defined.

Example generate_random_chunks_3_4 :
  (generate_random_chunks 3 4 (demo_world ∅)).1 = Ok ["ACFH"; "KMPR"; "UWZ1"].
Proof. vm_compute. reflexivity. Qed.

(** C2 as stated fails in its last clause: a call that draws anything leaves
    the shared random generator in another state than it found it. *)
Lemma generate_random_chunks_advances_generator :
  ndrawn (generate_random_chunks 1 1 (demo_world ∅)).2 = 1 ∧
  (generate_random_chunks 1 1 (demo_world ∅)).2 ≠ demo_world ∅.
Proof.
  split; [reflexivity|]. intros H.
  apply (f_equal ndrawn) in H. vm_compute in H. discriminate.
Qed.

(** ** Writing one file after the other *)

Lemma string_app_cons (a : ascii) (s t : string) :
  String a s +:+ t = String a (s +:+ t).
Proof. reflexivity. Qed.

Lemma list_ascii_of_string_app (s t : string) :
  list_ascii_of_string (s +:+ t) = list_ascii_of_string s ++ list_ascii_of_string t.
Proof.
  induction s as [|a s IH]; [reflexivity|].
  rewrite string_app_cons. simpl. by rewrite IH.
Qed.

Lemma string_app_inv_tail (s1 s2 t : string) : s1 +:+ t = s2 +:+ t → s1 = s2.
Proof.
  intros H. apply (f_equal list_ascii_of_string) in H.
  rewrite !list_ascii_of_string_app in H. apply app_inv_tail in H.
  rewrite <- (string_of_list_ascii_of_string s1), <- (string_of_list_ascii_of_string s2).
  by f_equal.
Qed.

Lemma entry_name_inj (i j : nat) : entry_name i = entry_name j → i = j.
Proof.
  unfold entry_name. intros H. apply string_app_inv_tail in H.
  by apply (inj pretty) in H.
Qed.

Lemma string_app_empty (s : string) : s +:+ "" = s.
Proof.
  induction s as [|a s IH]; [reflexivity|].
  rewrite string_app_cons. by rewrite IH.
Qed.

Lemma overwrite_empty (data : string) : overwrite data "" = data.
Proof.
  unfold overwrite. destruct (String.length data); simpl; apply string_app_empty.
Qed.

Lemma keeps_dirs_trans m1 m2 m3 :
  keeps_dirs m1 m2 → keeps_dirs m2 m3 → keeps_dirs m1 m3.
Proof. intros H1 H2 k Hk. by apply H2, H1. Qed.

Lemma keeps_dirs_insert_dir d dm (m : gmap string node) :
  keeps_dirs m (<[d := Dir dm]> m).
Proof.
  intros k Hk. destruct (decide (d = k)) as [->|Hne].
  - by rewrite lookup_insert_eq.
  - by rewrite lookup_insert_ne.
Qed.

Lemma files_from_before (k : nat) (chunks : list string) (i : nat) :
  i < k → files_from k chunks !! entry_name i = None.
Proof.
  revert k. induction chunks as [|c rest IH]; intros k Hi; simpl; [done|].
  rewrite lookup_insert_ne; [apply IH; lia|].
  intros H. apply entry_name_inj in H. lia.
Qed.

Lemma files_from_lookup (k : nat) (chunks : list string) (i : nat) :
  files_from k chunks !! entry_name (k + i) = File <$> chunks !! i.
Proof.
  revert k i. induction chunks as [|c rest IH]; intros k i; simpl; [done|].
  destruct i as [|i].
  - rewrite Nat.add_0_r. apply lookup_insert_eq.
  - rewrite lookup_insert_ne.
    + replace (k + S i) with (S k + i) by lia. apply IH.
    + intros H. apply entry_name_inj in H. lia.
Qed.

Lemma files_from_other (k : nat) (chunks : list string) (s : string) :
  (∀ i, i < length chunks → s ≠ entry_name (k + i)) →
  files_from k chunks !! s = None.
Proof.
  revert k. induction chunks as [|c rest IH]; intros k Hs; simpl; [done|].
  rewrite lookup_insert_ne.
  - apply IH. intros i Hi. replace (S k + i) with (k + S i) by lia.
    apply Hs. simpl. lia.
  - intros H. apply (Hs 0); [simpl; lia|]. by rewrite Nat.add_0_r.
Qed.

Lemma files_from_named (k : nat) (chunks : list string) (s : string) :
  is_Some (files_from k chunks !! s) →
  ∃ i, i < length chunks ∧ s = entry_name (k + i).
Proof.
  revert k. induction chunks as [|c rest IH]; intros k [n Hn]; simpl in *.
  - by rewrite lookup_empty in Hn.
  - destruct (decide (entry_name k = s)) as [<-|Hne].
    + exists 0. split; [lia|]. by rewrite Nat.add_0_r.
    + rewrite lookup_insert_ne in Hn by done.
      destruct (IH (S k)) as (i & Hi & ->); [by eexists|].
      exists (S i). split; [lia|]. f_equal. lia.
Qed.

(** One file, through any of the three sequential front ends: they all come
    down to the same three calls. *)
Lemma write_one (d f chunk : string) (m : gmap string node) (w : world) :
  fs w !! d = Some (Dir m) → is_dir (m !! f) = false →
  with_ (open_w [d; f]) close_h (λ h, write_h h chunk) w =
    (Ok tt,
     with_fs_log (<[d := Dir (<[f := File chunk]> m)]> (fs w))
       (log w ++ [(EvOpen [d; f], <[d := Dir (<[f := File ""]> m)]> (fs w));
                  (EvWrite [d; f] chunk, <[d := Dir (<[f := File chunk]> m)]> (fs w));
                  (EvClose [d; f], <[d := Dir (<[f := File chunk]> m)]> (fs w))]) w).
Proof.
  intros Hd Hf.
  assert (Hopen : open_w [d; f] w =
    (Ok [d; f], emit (EvOpen [d; f])
                  (set_fs (<[d := Dir (<[f := File ""]> m)]> (fs w)) w))).
  { unfold open_w. rewrite stat_at_2, Hd.
    destruct (m !! f) as [[old|?]|] eqn:Hmf; [|done|].
    - by rewrite (update_path_2 _ _ _ _ m).
    - change (parent [d; f]) with [d]. rewrite stat_at_1, Hd.
      by rewrite (update_path_2 _ _ _ _ m). }
  unfold with_, bind. rewrite Hopen. unfold try_finally, write_h, close_h.
  cbn [fst snd fs log emit set_fs now ticks nticks rng ndrawn sched nsched].
  rewrite (update_path_2 _ _ _ _ (<[f := File ""]> m)) by apply lookup_insert_eq.
  rewrite insert_insert_eq.
  assert (Hw : partial_alter
    (λ o, match o with
          | Some (File old) => Some (File (overwrite chunk old))
          | o' => o'
          end) f (<[f := File ""]> m) = <[f := File chunk]> m).
  { apply map_eq. intros k. destruct (decide (f = k)) as [->|Hne].
    - rewrite lookup_partial_alter_eq, !lookup_insert_eq. simpl.
      by rewrite overwrite_empty.
    - rewrite lookup_partial_alter_ne, !lookup_insert_ne by done. done. }
  rewrite Hw. unfold with_fs_log, emit, set_fs. simpl.
  rewrite <- !app_assoc. reflexivity.
Qed.

Lemma write_loop_ok (d : string) (chunks : list string) :
  ∀ (idx : nat) (m : gmap string node) (w : world),
    fs w !! d = Some (Dir m) → no_clash m →
    ∃ l,
      for_enumerate (λ idx chunk, write_file (file_name d idx) chunk) idx chunks w =
        (Ok tt,
         with_fs_log (<[d := Dir (files_from idx chunks ∪ m)]> (fs w)) (log w ++ l) w) ∧
      l.*1 = write_events d idx chunks ∧
      Forall (λ e, keeps_dirs (fs w) e.2) l.
Proof.
  induction chunks as [|chunk rest IH]; intros idx m w Hd Hm.
  - exists []. simpl. unfold ret, with_fs_log.
    rewrite (left_id_L ∅ (∪)), insert_id, app_nil_r, world_eta by done.
    by repeat split.
  - simpl for_enumerate. unfold bind at 1. unfold write_file at 1.
    change (file_name d idx) with [d; entry_name idx].
    rewrite (write_one d (entry_name idx) chunk m w Hd (Hm idx)).
    set (m1 := <[entry_name idx := File chunk]> m).
    set (l1 := [(EvOpen [d; entry_name idx], <[d := Dir (<[entry_name idx := File ""]> m)]> (fs w));
                (EvWrite [d; entry_name idx] chunk, <[d := Dir m1]> (fs w));
                (EvClose [d; entry_name idx], <[d := Dir m1]> (fs w))]).
    destruct (IH (S idx) m1 (with_fs_log (<[d := Dir m1]> (fs w)) (log w ++ l1) w))
      as (l & Hrun & Hev & Hkeep).
    { simpl. apply lookup_insert_eq. }
    { intros j. unfold m1. destruct (decide (entry_name idx = entry_name j)) as [->|Hne].
      - by rewrite lookup_insert_eq.
      - rewrite lookup_insert_ne by done. apply Hm. }
    exists (l1 ++ l). rewrite Hrun. split; [|split].
    + f_equal. unfold with_fs_log.
      cbn [fs log now ticks nticks rng ndrawn sched nsched files_from].
      rewrite insert_insert_eq, <- app_assoc. fold (entry_name idx).
      f_equal. do 2 f_equal. unfold m1.
      rewrite <- insert_union_l.
      rewrite insert_union_r; [done|]. apply files_from_before. lia.
    + rewrite fmap_app, Hev. reflexivity.
    + apply Forall_app. split.
      * unfold l1. repeat constructor; simpl; apply keeps_dirs_insert_dir.
      * eapply Forall_impl; [exact Hkeep|]. intros e He. simpl in He.
        eapply keeps_dirs_trans; [|exact He]. apply keeps_dirs_insert_dir.
Qed.

Lemma sequential_unfold (d : Dirs) (chunks : list string) :
  d ≠ EXECUTOR →
  strategy d chunks =
    perf_manager (timer_label d)
      (for_enumerate (λ idx chunk, write_file (file_name (value d) idx) chunk) 0 chunks).
Proof.
  intros Hd. destruct d; [reflexivity..|done].
Qed.

(** What a timed body that succeeds leaves: its own effects, one clock read
    on either side, and the timer's line. *)
Lemma perf_manager_ok {A} (description : string) (body : M A) (a : A) (w w1 : world) :
  body (clock_read w) = (Ok a, w1) →
  ∃ (t : N) (w' : world),
    perf_manager description body w = (Ok a, w') ∧
    fs w' = fs w1 ∧
    log w' = log w1 ++ [(EvPrint (timer_line description t), fs w1)].
Proof.
  intros Hbody. rewrite perf_manager_outcome. simpl. rewrite Hbody.
  eexists _, _. split; [reflexivity|]. simpl. by split.
Qed.

Lemma sequential_ok (d : Dirs) (chunks : list string) (m : gmap string node)
    (w : world) :
  d ≠ EXECUTOR → fs w !! value d = Some (Dir m) → no_clash m →
  ∃ (l : list (event * gmap string node)) (t : N) (w' : world),
    strategy d chunks w = (Ok tt, w') ∧
    fs w' = <[value d := Dir (files_from 0 chunks ∪ m)]> (fs w) ∧
    log w' = log w ++ l ++ [(EvPrint (timer_line (timer_label d) t), fs w')] ∧
    l.*1 = write_events (value d) 0 chunks ∧
    Forall (λ e, keeps_dirs (fs w) e.2) l.
Proof.
  intros Hd Hm Hclash. rewrite sequential_unfold by done.
  destruct (write_loop_ok (value d) chunks 0 m (clock_read w) Hm Hclash)
    as (l & Hrun & Hev & Hkeep).
  destruct (perf_manager_ok (timer_label d) _ tt w _ Hrun) as (t & w' & Hp & Hfs & Hlog).
  exists l, t, w'. rewrite Hfs, Hlog. simpl. rewrite <- app_assoc. by repeat split.
Qed.

(** ** The thread pool *)

Lemma indices_where_elem (f : task → bool) (ts : list task) :
  ∀ (k x : nat), x ∈ indices_where f k ts →
    ∃ t, ts !! (x - k) = Some t ∧ f t = true ∧ k ≤ x.
Proof.
  induction ts as [|t ts IH]; intros k x Hx; simpl in Hx.
  - by apply not_elem_of_nil in Hx.
  - apply elem_of_app in Hx as [Hx|Hx].
    + destruct (f t) eqn:Hf; [|by apply not_elem_of_nil in Hx].
      apply list_elem_of_singleton in Hx as ->.
      exists t. rewrite Nat.sub_diag. by repeat split.
    + destruct (IH _ _ Hx) as (t' & Ht' & Hf & Hle).
      exists t'. replace (x - k) with (S (x - S k)) by lia.
      repeat split; [done..|lia].
Qed.

Lemma indices_where_nil (f : task → bool) (ts : list task) :
  ∀ k, indices_where f k ts = [] → ∀ t, t ∈ ts → f t = false.
Proof.
  induction ts as [|t0 ts IH]; intros k Hnil t Ht.
  - by apply not_elem_of_nil in Ht.
  - simpl in Hnil. apply app_eq_nil in Hnil as [Hhd Htl].
    apply elem_of_cons in Ht as [->|Ht].
    + by destruct (f t0).
    + by apply (IH (S k)).
Qed.

Lemma runnable_elem (workers : nat) (ts : list task) (i : nat) :
  i ∈ runnable workers ts → ∃ t, ts !! i = Some t ∧ t_pc t < 3.
Proof.
  unfold runnable. intros Hi. apply elem_of_app in Hi as [Hi|Hi].
  - apply indices_where_elem in Hi as (t & Ht & Hf & _).
    rewrite Nat.sub_0_r in Ht. exists t. split; [done|].
    unfold in_flight in Hf. apply orb_true_iff in Hf as [Hf|Hf];
      apply Nat.eqb_eq in Hf; lia.
  - destruct (length _ <? workers)%nat; [|by apply not_elem_of_nil in Hi].
    assert (Hq : i ∈ indices_where queued 0 ts).
    { destruct (indices_where queued 0 ts) as [|q qs]; [done|].
      simpl in Hi. rewrite take_0 in Hi.
      apply list_elem_of_singleton in Hi as ->. apply list_elem_of_here. }
    apply indices_where_elem in Hq as (t & Ht & Hf & _).
    rewrite Nat.sub_0_r in Ht. exists t. split; [done|].
    unfold queued in Hf. apply Nat.eqb_eq in Hf. lia.
Qed.

Lemma runnable_nil (ts : list task) :
  runnable max_workers ts = [] →
  (∀ t, t ∈ ts → t_pc t ≤ 3) → ∀ t, t ∈ ts → t_pc t = 3.
Proof.
  unfold runnable. intros Hnil Hle t Ht.
  apply app_eq_nil in Hnil as [Hbusy Hq]. rewrite Hbusy in Hq. simpl in Hq.
  assert (Hq' : indices_where queued 0 ts = []).
  { destruct (indices_where queued 0 ts); [done|discriminate]. }
  pose proof (indices_where_nil _ _ _ Hbusy t Ht) as Hb.
  pose proof (indices_where_nil _ _ _ Hq' t Ht) as Hq0.
  unfold in_flight in Hb. unfold queued in Hq0.
  apply orb_false_iff in Hb as [H1 H2].
  apply Nat.eqb_neq in H1, H2, Hq0. specialize (Hle t Ht). lia.
Qed.

Lemma remaining_0 (ts : list task) :
  remaining ts = 0 → (∀ t, t ∈ ts → t_pc t ≤ 3) → ∀ t, t ∈ ts → t_pc t = 3.
Proof.
  unfold remaining. induction ts as [|t0 ts IH]; intros Hz Hle t Ht.
  - by apply not_elem_of_nil in Ht.
  - simpl in Hz. apply elem_of_cons in Ht as [->|Ht].
    + specialize (Hle t0 (list_elem_of_here _ _)). lia.
    + apply IH; [lia| |done]. intros t' Ht'. apply Hle. by apply list_elem_of_further.
Qed.

Lemma remaining_step (ts : list task) :
  ∀ (i : nat) (t t' : task),
    ts !! i = Some t → t_pc t < 3 → t_pc t' = S (t_pc t) →
    S (remaining (<[i := t']> ts)) = remaining ts.
Proof.
  unfold remaining. induction ts as [|t0 ts IH]; intros i t t' Hi Hlt Hpc; [done|].
  destruct i as [|i]; simpl in *.
  - injection Hi as ->. lia.
  - rewrite <- (IH i t t') by done. lia.
Qed.

Section pool.
  (** The pool's directory, the working directory it started from, and the
      chunks its tasks were submitted for. *)
  Context (d : string) (m0 : gmap string node) (chunks : list string).

Lemma pool_dir_inv_step (ts : list task) (dm : gmap string node) (i : nat)
    (t : task) (c' : node) :
  pool_dir_inv d chunks ts dm → ts !! i = Some t → t_pc t < 3 →
  pool_cell (Task (t_file t) (t_data t) (S (t_pc t))) = Some c' →
  pool_dir_inv d chunks (<[i := Task (t_file t) (t_data t) (S (t_pc t))]> ts)
    (<[entry_name i := c']> dm).
Proof.
  intros (Hlen & Htasks & Hrest) Hi Hlt Hcell.
  pose proof (lookup_lt_Some _ _ _ Hi) as Hil.
  split; [by rewrite length_insert|]. split.
  - intros j tj Hj. destruct (decide (i = j)) as [<-|Hne].
    + rewrite list_lookup_insert_eq in Hj by done. injection Hj as <-.
      destruct (Htasks i t Hi) as (Hf & Hc & _ & _). simpl.
      rewrite lookup_insert_eq. repeat split; [done..|lia|done].
    + rewrite list_lookup_insert_ne in Hj by done.
      destruct (Htasks j tj Hj) as (Hf & Hc & Hp & Hd).
      rewrite lookup_insert_ne; [done|].
      intros H. by apply entry_name_inj in H.
  - intros s Hs. rewrite length_insert in Hs.
    rewrite lookup_insert_ne; [by apply Hrest|].
    intros <-. by apply (Hs i).
Qed.

Lemma step_task_ok (ts : list task) (i : nat) (t : task) (w : world) :
  pool_inv d m0 chunks ts (fs w) → ts !! i = Some t → t_pc t < 3 →
  ∃ (ev : event) (w' : world),
    step_task t w = ((Task (t_file t) (t_data t) (S (t_pc t)), None), w') ∧
    log w' = log w ++ [(ev, fs w')] ∧
    file_event_in d ev ∧
    done_events (Task (t_file t) (t_data t) (S (t_pc t))) = done_events t ++ [ev] ∧
    pool_inv d m0 chunks (<[i := Task (t_file t) (t_data t) (S (t_pc t))]> ts) (fs w').
Proof.
  intros (dm & Hfs & Hinv) Hi Hlt.
  destruct (proj1 (proj2 Hinv) i t Hi) as (Hfile & Hdata & _ & Hcell).
  assert (Hd : fs w !! d = Some (Dir dm)) by (rewrite Hfs; apply lookup_insert_eq).
  destruct t as [tf td pc]. simpl in Hfile, Hdata, Hcell, Hlt. subst tf.
  unfold step_task, pool_cell in *. simpl t_file. simpl t_data. simpl t_pc in *.
  change (file_name d i) with [d; entry_name i] in *.
  destruct pc as [|[|[|pc]]]; [| | |lia].
  - (* open *)
    unfold open_w. rewrite stat_at_2, Hd, Hcell.
    change (parent [d; entry_name i]) with [d]. rewrite stat_at_1, Hd.
    rewrite (update_path_2 _ _ _ _ dm) by done.
    eexists (EvOpen [d; entry_name i]), _. split; [reflexivity|].
    simpl. split; [done|]. split; [done|]. split; [done|].
    exists (<[entry_name i := File ""]> dm). split.
    + by rewrite Hfs, insert_insert_eq.
    + by apply (pool_dir_inv_step ts dm i (Task [d; entry_name i] td 0)).
  - (* write *)
    unfold write_h. rewrite (update_path_2 _ _ _ _ dm) by done.
    eexists (EvWrite [d; entry_name i] td), _. split; [reflexivity|].
    simpl. split; [done|]. split; [done|]. split; [done|].
    exists (<[entry_name i := File td]> dm). split.
    + rewrite Hfs, insert_insert_eq. do 2 f_equal.
      apply map_eq. intros k. destruct (decide (entry_name i = k)) as [<-|Hne].
      * rewrite lookup_partial_alter_eq, lookup_insert_eq, Hcell. simpl.
        by rewrite overwrite_empty.
      * by rewrite lookup_partial_alter_ne, lookup_insert_ne.
    + by apply (pool_dir_inv_step ts dm i (Task [d; entry_name i] td 1)).
  - (* close *)
    unfold close_h.
    eexists (EvClose [d; entry_name i]), _. split; [reflexivity|].
    simpl. split; [done|]. split; [done|]. split; [done|].
    exists dm. split; [done|].
    rewrite <- (insert_id dm (entry_name i) (File td)) at 1 by done.
    by apply (pool_dir_inv_step ts dm i (Task [d; entry_name i] td 2)).
Qed.

Lemma flat_map_insert_snoc {A B} (f : A → list B) (l : list A) :
  ∀ (i : nat) (x x' : A) (y : B),
    l !! i = Some x → f x' = f x ++ [y] →
    flat_map f (<[i := x']> l) ≡ₚ flat_map f l ++ [y].
Proof.
  induction l as [|a l IH]; intros i x x' y Hi Hf; [done|].
  destruct i as [|i]; simpl in *.
  - injection Hi as ->. rewrite Hf, <- !app_assoc.
    apply Permutation_app_head, Permutation_app_comm.
  - rewrite (IH i x x' y Hi Hf). by rewrite app_assoc.
Qed.

Lemma run_pool_S (fuel : nat) (ts : list task) (err : option exn) (w : world) :
  run_pool (S fuel) ts err w =
    match runnable max_workers ts with
    | [] => ((ts, err), w)
    | r :: rs =>
        match (r :: rs) !! ((next_choice w).1 `mod` length (r :: rs)) with
        | Some i =>
            match ts !! i with
            | Some t =>
                let '((t', e), w1) := step_task t (next_choice w).2 in
                run_pool fuel (<[i := t']> ts) (first_error err e) w1
            | None => ((ts, err), (next_choice w).2)
            end
        | None => ((ts, err), (next_choice w).2)
        end
    end.
Proof. simpl. destruct (runnable max_workers ts); reflexivity. Qed.

Lemma pool_inv_pcs (ts : list task) (m : gmap string node) :
  pool_inv d m0 chunks ts m → ∀ t, t ∈ ts → t_pc t ≤ 3.
Proof.
  intros (dm & _ & _ & Htasks & _) t Ht.
  apply list_elem_of_lookup in Ht as [i Hi].
  by destruct (Htasks i t Hi) as (_ & _ & ? & _).
Qed.

Lemma run_pool_ok :
  ∀ (fuel : nat) (ts : list task) (w : world),
    pool_inv d m0 chunks ts (fs w) → remaining ts ≤ fuel →
    ∃ (ts' : list task) (l : list (event * gmap string node)) (w' : world),
      run_pool fuel ts None w = ((ts', None), w') ∧
      pool_inv d m0 chunks ts' (fs w') ∧
      (∀ t, t ∈ ts' → t_pc t = 3) ∧
      log w' = log w ++ l ∧
      Forall (λ e, file_event_in d e.1 ∧ ∃ dm, e.2 = <[d := Dir dm]> m0) l ∧
      flat_map done_events ts ++ l.*1 ≡ₚ flat_map done_events ts'.
Proof.
  induction fuel as [|fuel IH]; intros ts w Hinv Hrem.
  - exists ts, [], w. simpl. rewrite !app_nil_r.
    split; [done|]. split; [done|]. split; [|done].
    apply remaining_0; [lia|]. eapply pool_inv_pcs, Hinv.
  - rewrite run_pool_S. destruct (runnable max_workers ts) as [|r rs] eqn:Hr.
    + exists ts, [], w. simpl. rewrite !app_nil_r.
      split; [done|]. split; [done|]. split; [|done].
      apply runnable_nil; [done|]. eapply pool_inv_pcs, Hinv.
    + destruct (lookup_lt_is_Some_2 (r :: rs)
                  ((next_choice w).1 `mod` length (r :: rs))) as [i Hi].
      { apply Nat.mod_upper_bound. simpl. lia. }
      rewrite Hi.
      assert (Hin : i ∈ runnable max_workers ts).
      { rewrite Hr. eapply list_elem_of_lookup_2, Hi. }
      apply runnable_elem in Hin as (t & Ht & Hlt). rewrite Ht.
      destruct (step_task_ok ts i t (next_choice w).2 Hinv Ht Hlt)
        as (ev & w1 & Hstep & Hlog1 & Hev & Hdone1 & Hinv1).
      rewrite Hstep. simpl first_error.
      destruct (IH _ w1 Hinv1)
        as (ts' & l & w' & Hrun & Hinv' & Hdone & Hlog & Hall & Hperm).
      { pose proof (remaining_step ts i t (Task (t_file t) (t_data t) (S (t_pc t)))
                      Ht Hlt eq_refl). lia. }
      exists ts', ((ev, fs w1) :: l), w'. split; [done|]. split; [done|].
      split; [done|]. split; [|split].
      * rewrite Hlog, Hlog1. simpl. by rewrite <- app_assoc.
      * constructor; [|done]. simpl. split; [done|].
        destruct Hinv1 as (dm & Hdm & _). by exists dm.
      * rewrite <- Hperm, (flat_map_insert_snoc done_events ts i t _ ev Ht Hdone1).
        simpl. by rewrite <- app_assoc.
Qed.

End pool.

Lemma submit_all_length (d : string) (chunks : list string) :
  ∀ k, length (submit_all d k chunks) = length chunks.
Proof. induction chunks as [|c rest IH]; intros k; simpl; [done|by rewrite IH]. Qed.

Lemma submit_all_lookup (d : string) (chunks : list string) :
  ∀ (k i : nat) (t : task),
    submit_all d k chunks !! i = Some t →
    t_file t = file_name d (k + i) ∧ chunks !! i = Some (t_data t) ∧ t_pc t = 0.
Proof.
  induction chunks as [|c rest IH]; intros k i t Ht; simpl in Ht; [done|].
  destruct i as [|i]; simpl in *.
  - injection Ht as <-. simpl. by rewrite Nat.add_0_r.
  - destruct (IH (S k) i t Ht) as (Hf & Hc & Hp).
    replace (k + S i) with (S k + i) by lia. done.
Qed.

Lemma submit_all_remaining (d : string) (chunks : list string) :
  ∀ k, remaining (submit_all d k chunks) = 3 * length chunks.
Proof.
  unfold remaining. induction chunks as [|c rest IH]; intros k; simpl; [done|].
  rewrite IH. lia.
Qed.

Lemma pool_inv_submitted (d : string) (chunks : list string) (m : gmap string node) :
  m !! d = Some (Dir ∅) → pool_inv d m chunks (submit_all d 0 chunks) m.
Proof.
  intros Hd. exists ∅. split; [by rewrite insert_id|].
  split; [apply submit_all_length|]. split; [|done].
  intros i t Ht. destruct (submit_all_lookup d chunks 0 i t Ht) as (Hf & Hc & Hp).
  simpl in Hf. unfold pool_cell. rewrite Hp.
  split; [done|]. split; [done|]. split; [lia|done].
Qed.

Lemma entry_name_among (n : nat) (s : string) :
  (∃ i, i < n ∧ s = entry_name i) ∨ (∀ i, i < n → s ≠ entry_name i).
Proof.
  induction n as [|n [(i & Hi & ->)|IH]].
  - right. intros i Hi. lia.
  - left. exists i. split; [lia|done].
  - destruct (decide (s = entry_name n)) as [->|Hne].
    + left. exists n. split; [lia|done].
    + right. intros i Hi. destruct (decide (i = n)) as [->|]; [done|]. apply IH. lia.
Qed.

Lemma pool_inv_finished (d : string) (m0 : gmap string node) (chunks : list string)
    (ts : list task) (m : gmap string node) :
  pool_inv d m0 chunks ts m → (∀ t, t ∈ ts → t_pc t = 3) →
  m = <[d := Dir (files_from 0 chunks)]> m0.
Proof.
  intros (dm & -> & Hlen & Htasks & Hrest) Hdone. do 2 f_equal.
  apply map_eq. intros s.
  destruct (entry_name_among (length ts) s) as [(i & Hi & ->)|Hs].
  - destruct (lookup_lt_is_Some_2 ts i Hi) as [t Ht].
    destruct (Htasks i t Ht) as (_ & Hc & _ & Hcell).
    pose proof (files_from_lookup 0 chunks i) as Hf. simpl in Hf.
    rewrite Hcell, Hf, Hc.
    unfold pool_cell. by rewrite (Hdone t (list_elem_of_lookup_2 _ _ _ Ht)).
  - rewrite Hrest by done. symmetry. apply files_from_other.
    intros i Hi. apply Hs. by rewrite Hlen.
Qed.

Lemma submit_all_no_events (d : string) (chunks : list string) :
  ∀ k, flat_map done_events (submit_all d k chunks) = [].
Proof. induction chunks as [|c rest IH]; intros k; simpl; [done|apply IH]. Qed.

Lemma finished_events (d : string) (ts : list task) :
  ∀ (k : nat) (chunks : list string),
    length ts = length chunks →
    (∀ i t, ts !! i = Some t →
       t_file t = file_name d (k + i) ∧ chunks !! i = Some (t_data t) ∧ t_pc t = 3) →
    flat_map done_events ts = write_events d k chunks.
Proof.
  induction ts as [|t ts IH]; intros k [|c chunks] Hlen Hts; try done.
  destruct (Hts 0 t eq_refl) as (Hf & Hc & Hp). injection Hc as ->.
  rewrite Nat.add_0_r in Hf. simpl. unfold done_events at 1. rewrite Hp, Hf. simpl.
  do 3 f_equal. apply IH; [by injection Hlen|].
  intros i t' Ht'. replace (S k + i) with (k + S i) by lia. by apply (Hts (S i)).
Qed.

Lemma executor_ok (chunks : list string) (w : world) :
  fs w !! value EXECUTOR = Some (Dir ∅) →
  ∃ (l : list (event * gmap string node)) (t : N) (w' : world),
    test_executor chunks w = (Ok tt, w') ∧
    fs w' = <[value EXECUTOR := Dir (files_from 0 chunks)]> (fs w) ∧
    log w' = log w ++ l ++ [(EvPrint (timer_line (timer_label EXECUTOR) t), fs w')] ∧
    Forall (λ e, file_event_in (value EXECUTOR) e.1) l ∧
    Forall (λ e, keeps_dirs (fs w) e.2) l ∧
    l.*1 ≡ₚ write_events (value EXECUTOR) 0 chunks.
Proof.
  intros Hd.
  destruct (run_pool_ok (value EXECUTOR) (fs w) chunks
              (3 * length chunks) (submit_all (value EXECUTOR) 0 chunks) (clock_read w))
    as (ts' & l & w1 & Hrun & Hinv & Hdone & Hlog & Hall & Hperm).
  { by apply pool_inv_submitted. }
  { by rewrite submit_all_remaining. }
  assert (Hbody : gather (submit_all (value EXECUTOR) 0 chunks) (clock_read w)
                  = (Ok tt, w1)).
  { unfold gather. rewrite submit_all_length. by rewrite Hrun. }
  destruct (perf_manager_ok (timer_label EXECUTOR) _ tt w w1 Hbody)
    as (t & w' & Hp & Hfs & Hlog').
  exists l, t, w'. split; [exact Hp|].
  rewrite Hfs, Hlog', Hlog. simpl. rewrite <- app_assoc.
  split; [by apply (pool_inv_finished _ _ _ ts')|]. split; [done|].
  split; [|split].
  - eapply Forall_impl; [exact Hall|]. by intros e [He _].
  - eapply Forall_impl; [exact Hall|]. intros e [_ (dm & Hdm)].
    rewrite Hdm. apply keeps_dirs_insert_dir.
  - rewrite submit_all_no_events in Hperm. simpl in Hperm. rewrite Hperm.
    destruct Hinv as (dm & _ & Hlen & Htasks & _).
    rewrite (finished_events (value EXECUTOR) ts' 0 chunks); [done|done|].
    intros i ti Hti. destruct (Htasks i ti Hti) as (Hf & Hc & _ & _).
    split; [done|]. split; [done|]. apply Hdone. eapply list_elem_of_lookup_2, Hti.
Qed.

Lemma write_events_in (d : string) (chunks : list string) :
  ∀ k, Forall (file_event_in d) (write_events d k chunks).
Proof.
  induction chunks as [|c rest IH]; intros k; simpl; [constructor|].
  repeat (constructor; [done|]). apply IH.
Qed.

(** Any of the four strategies, started on its empty directory. *)
Lemma strategy_ok (d : Dirs) (chunks : list string) (w : world) :
  fs w !! value d = Some (Dir ∅) →
  ∃ (l : list (event * gmap string node)) (t : N) (w' : world),
    strategy d chunks w = (Ok tt, w') ∧
    fs w' = <[value d := Dir (expected_files chunks)]> (fs w) ∧
    log w' = log w ++ l ++ [(EvPrint (timer_line (timer_label d) t), fs w')] ∧
    Forall (λ e, file_event_in (value d) e.1) l ∧
    Forall (λ e, keeps_dirs (fs w) e.2) l ∧
    l.*1 ≡ₚ write_events (value d) 0 chunks ∧
    (d ≠ EXECUTOR → l.*1 = write_events (value d) 0 chunks).
Proof.
  intros Hd. destruct (decide (d = EXECUTOR)) as [->|Hne].
  - destruct (executor_ok chunks w Hd) as (l & t & w' & H1 & H2 & H3 & H4 & H5 & H6).
    exists l, t, w'. by repeat split.
  - destruct (sequential_ok d chunks ∅ w Hne Hd) as (l & t & w' & H1 & H2 & H3 & H4 & H5).
    { intros idx. by rewrite lookup_empty. }
    rewrite (right_id_L ∅ (∪)) in H2.
    exists l, t, w'. split; [done|]. split; [done|]. split; [done|].
    split; [|split; [done|split; [by rewrite H4|done]]].
    pose proof (write_events_in (value d) chunks 0) as Hin.
    rewrite <- H4, Forall_fmap in Hin. exact Hin.
Qed.

(** C1. Each of the four strategies, run on the same chunk list with its
    directory existing and empty, returns normally and leaves in its directory
    exactly [expected_files chunks]: for every index [i], [i.txt] holds
    [chunks[i]] unchanged, and no entry other than [0.txt] ... [(N-1).txt]
    exists.  That map does not depend on the strategy, so the four
    directories hold the same (name, content) pairs; the rest of the working
    directory is untouched. *)
Theorem strategies_leave_the_same_files (d : Dirs) (chunks : list string) (w : world) :
  fs w !! value d = Some (Dir ∅) →
  ∃ w',
    strategy d chunks w = (Ok tt, w') ∧
    fs w' = <[value d := Dir (expected_files chunks)]> (fs w) ∧
    (∀ i, expected_files chunks !! (pretty i +:+ ".txt") = File <$> chunks !! i) ∧
    (∀ s, is_Some (expected_files chunks !! s) →
          ∃ i, i < length chunks ∧ s = pretty i +:+ ".txt").
Proof.
  intros Hd.
  destruct (strategy_ok d chunks w Hd) as (l & t & w' & Hrun & Hfs & _).
  exists w'. split; [done|]. split; [done|]. split.
  - intros i. apply (files_from_lookup 0 chunks i).
  - intros s Hs. apply (files_from_named 0 chunks s Hs).
Qed.

Lemma strategies_leave_the_same_files_witness :
  ∃ w',
    strategy EXECUTOR ["AB"; "CDE"] (demo_world {["executor" := Dir ∅]}) = (Ok tt, w') ∧
    fs w' = <[value EXECUTOR := Dir (expected_files ["AB"; "CDE"])]>
              (fs (demo_world {["executor" := Dir ∅]})) ∧
    (∀ i, expected_files ["AB"; "CDE"] !! (pretty i +:+ ".txt")
          = File <$> ["AB"; "CDE"] !! i) ∧
    (∀ s, is_Some (expected_files ["AB"; "CDE"] !! s) →
          ∃ i, i < length ["AB"; "CDE"] ∧ s = pretty i +:+ ".txt").
Proof.
  exact (strategies_leave_the_same_files EXECUTOR ["AB"; "CDE"]
           (demo_world {["executor" := Dir ∅]}) eq_refl).
Defined.

Example four_directories_after_the_strategies :
  let chunks := ["AB"; "CDE"; "F"] in
  let w := demo_world {["aiofiles" := Dir ∅; "aiofile" := Dir ∅;
                        "file" := Dir ∅; "executor" := Dir ∅]} in
  fs ((test_aiofiles chunks ;; test_aiofile chunks ;;
       test_executor chunks ;; test_file chunks) w).2 =
    {["aiofiles" := Dir {["0.txt" := File "AB"; "1.txt" := File "CDE"; "2.txt" := File "F"]};
      "aiofile" := Dir {["0.txt" := File "AB"; "1.txt" := File "CDE"; "2.txt" := File "F"]};
      "file" := Dir {["0.txt" := File "AB"; "1.txt" := File "CDE"; "2.txt" := File "F"]};
      "executor" := Dir {["0.txt" := File "AB"; "1.txt" := File "CDE"; "2.txt" := File "F"]}]}.
Proof. vm_compute. reflexivity. Qed.

Lemma write_events_length (d : string) (chunks : list string) :
  ∀ k, length (write_events d k chunks) = 3 * length chunks.
Proof.
  induction chunks as [|c rest IH]; intros k; simpl; [done|]. rewrite IH. lia.
Qed.

Lemma write_events_lookup (d : string) (chunks : list string) :
  ∀ (k i : nat) (chunk : string),
    chunks !! i = Some chunk →
    write_events d k chunks !! (3 * i) = Some (EvOpen (file_name d (k + i))) ∧
    write_events d k chunks !! (3 * i + 1) = Some (EvWrite (file_name d (k + i)) chunk) ∧
    write_events d k chunks !! (3 * i + 2) = Some (EvClose (file_name d (k + i))).
Proof.
  induction chunks as [|c rest IH]; intros k i chunk Hi; [done|].
  destruct i as [|i].
  - injection Hi as ->. rewrite Nat.add_0_r. by repeat split.
  - simpl in Hi. destruct (IH (S k) i chunk Hi) as (H1 & H2 & H3).
    replace (k + S i) with (S k + i) by lia.
    replace (3 * S i) with (S (S (S (3 * i)))) by lia.
    by repeat split.
Qed.

(** C5. A sequential strategy (aiofiles, aiofile or the direct one), run
    with its directory in place, makes exactly the calls open, write, close
    of [0.txt], then those of [1.txt], and so on: the three calls on file [i]
    sit at positions [3i], [3i+1], [3i+2] of its [3N] calls.  So file [i] is
    closed before file [i+1] is opened and no two writes overlap; the timer's
    line follows the last close. *)
Theorem sequential_strategies_write_in_index_order (d : Dirs) (chunks : list string)
    (m : gmap string node) (w : world) :
  d ≠ EXECUTOR → fs w !! value d = Some (Dir m) → no_clash m →
  ∃ (l : list (event * gmap string node)) (t : N) (w' : world),
    strategy d chunks w = (Ok tt, w') ∧
    log w' = log w ++ l ++ [(EvPrint (timer_line (timer_label d) t), fs w')] ∧
    l.*1 = write_events (value d) 0 chunks ∧
    length l = 3 * length chunks ∧
    (∀ i chunk, chunks !! i = Some chunk →
       l.*1 !! (3 * i) = Some (EvOpen (file_name (value d) i)) ∧
       l.*1 !! (3 * i + 1) = Some (EvWrite (file_name (value d) i) chunk) ∧
       l.*1 !! (3 * i + 2) = Some (EvClose (file_name (value d) i))).
Proof.
  intros Hd Hm Hclash.
  destruct (sequential_ok d chunks m w Hd Hm Hclash) as (l & t & w' & H1 & _ & H3 & H4 & _).
  exists l, t, w'. split; [done|]. split; [done|]. split; [done|]. split.
  - rewrite <- (length_fmap fst), H4. apply write_events_length.
  - intros i chunk Hi. rewrite H4. apply (write_events_lookup (value d) chunks 0 i chunk Hi).
Qed.

Lemma no_clash_empty : no_clash ∅.
Proof. intros idx. by rewrite lookup_empty. Qed.

Lemma sequential_strategies_write_in_index_order_witness :
  ∃ (l : list (event * gmap string node)) (t : N) (w' : world),
    strategy AIOFILES ["AB"; "CDE"] (demo_world {["aiofiles" := Dir ∅]}) = (Ok tt, w') ∧
    log w' = log (demo_world {["aiofiles" := Dir ∅]}) ++ l ++
             [(EvPrint (timer_line (timer_label AIOFILES) t), fs w')] ∧
    l.*1 = write_events (value AIOFILES) 0 ["AB"; "CDE"] ∧
    length l = 3 * length ["AB"; "CDE"] ∧
    (∀ i chunk, ["AB"; "CDE"] !! i = Some chunk →
       l.*1 !! (3 * i) = Some (EvOpen (file_name (value AIOFILES) i)) ∧
       l.*1 !! (3 * i + 1) = Some (EvWrite (file_name (value AIOFILES) i) chunk) ∧
       l.*1 !! (3 * i + 2) = Some (EvClose (file_name (value AIOFILES) i))).
Proof.
  apply (sequential_strategies_write_in_index_order AIOFILES ["AB"; "CDE"] ∅
           (demo_world {["aiofiles" := Dir ∅]})).
  - discriminate.
  - reflexivity.
  - apply no_clash_empty.
Defined.

(** The pool makes no such promise: here the second file is opened while the
    first is still open. *)
Example pool_interleaves :
  map fst (log (test_executor ["AB"; "CDE"] (demo_world {["executor" := Dir ∅]})).2) =
    [EvOpen ["executor"; "0.txt"]; EvWrite ["executor"; "0.txt"] "AB";
     EvOpen ["executor"; "1.txt"]; EvClose ["executor"; "0.txt"];
     EvWrite ["executor"; "1.txt"] "CDE"; EvClose ["executor"; "1.txt"];
     EvPrint "Dirs.EXECUTOR: 1.234567 ms"].
Proof. vm_compute. reflexivity. Qed.

(** ** Harness *)

Lemma is_dir_Some (o : option node) : is_dir o = true → ∃ m, o = Some (Dir m).
Proof. destruct o as [[?|m]|]; try done. by exists m. Qed.

Lemma after_reset_lookup (m : gmap string node) (d : Dirs) :
  after_reset m !! value d = Some (Dir ∅).
Proof.
  unfold after_reset. simpl.
  destruct d; simpl;
    repeat (rewrite lookup_insert_ne by done); by rewrite lookup_insert_eq.
Qed.

Lemma after_cleanup_lookup (m : gmap string node) (d : Dirs) :
  after_cleanup m !! value d = None.
Proof.
  unfold after_cleanup. simpl.
  destruct d; simpl;
    repeat (rewrite lookup_delete_ne by done); by rewrite lookup_delete_eq.
Qed.

(** Whether each of the four directories is there. *)
Ltac case_label_dirs m :=
  destruct (is_dir (m !! "aiofiles")), (is_dir (m !! "aiofile")),
    (is_dir (m !! "file")), (is_dir (m !! "executor")).

Lemma reset_all_ok (w : world) :
  labels_free (fs w) →
  ∃ (pre : list (event * gmap string node)) (w' : world),
    for_each (λ dirname, delete_dir (value dirname) ;; make_dir (value dirname))
      all_Dirs w = (Ok tt, w') ∧
    fs w' = after_reset (fs w) ∧
    log w' = log w ++ pre ∧
    pre.*1 = reset_events (fs w) ∧
    ∃ e0, last pre = Some e0 ∧ e0.2 = after_reset (fs w).
Proof.
  intros Hfree. unfold all_Dirs, for_each. simpl value.
  change (delete_dir "aiofiles" ;; make_dir "aiofiles") with (reset "aiofiles").
  change (delete_dir "aiofile" ;; make_dir "aiofile") with (reset "aiofile").
  change (delete_dir "file" ;; make_dir "file") with (reset "file").
  change (delete_dir "executor" ;; make_dir "executor") with (reset "executor").
  pose proof (Hfree AIOFILES) as H1. pose proof (Hfree AIOFILE) as H2.
  pose proof (Hfree FILE) as H3. pose proof (Hfree EXECUTOR) as H4.
  simpl in H1, H2, H3, H4.
  unfold bind at 1. rewrite reset_ok by done.
  unfold bind at 1. rewrite reset_ok
    by (simpl; by rewrite lookup_insert_ne).
  unfold bind at 1. rewrite reset_ok
    by (simpl; by rewrite !lookup_insert_ne).
  unfold bind at 1. rewrite reset_ok
    by (simpl; by rewrite !lookup_insert_ne).
  unfold ret, with_fs_log. simpl.
  rewrite !lookup_insert_ne by done.
  eexists _, _. split; [reflexivity|]. simpl. split; [reflexivity|].
  rewrite <- !app_assoc. split; [reflexivity|]. split.
  - unfold reset_events. simpl. case_label_dirs (fs w); reflexivity.
  - exists (EvMkdir ["executor"], after_reset (fs w)). split; [|reflexivity].
    case_label_dirs (fs w); reflexivity.
Qed.

Lemma cleanup_all_ok (w : world) :
  all_labels_dirs (fs w) →
  ∃ (post : list (event * gmap string node)) (w' : world),
    for_each (λ dirname, delete_dir (value dirname)) all_Dirs w = (Ok tt, w') ∧
    fs w' = after_cleanup (fs w) ∧
    log w' = log w ++ post ∧
    post.*1 = cleanup_events.
Proof.
  intros Hall. unfold all_Dirs, for_each.
  destruct (is_dir_Some _ (Hall AIOFILES)) as [m1 H1].
  destruct (is_dir_Some _ (Hall AIOFILE)) as [m2 H2].
  destruct (is_dir_Some _ (Hall FILE)) as [m3 H3].
  destruct (is_dir_Some _ (Hall EXECUTOR)) as [m4 H4].
  simpl in H1, H2, H3, H4.
  unfold bind at 1. simpl value. rewrite (delete_dir_present _ m1) by done.
  unfold bind at 1. rewrite (delete_dir_present _ m2)
    by (simpl; by rewrite lookup_delete_ne).
  unfold bind at 1. rewrite (delete_dir_present _ m3)
    by (simpl; by rewrite !lookup_delete_ne).
  unfold bind at 1. rewrite (delete_dir_present _ m4)
    by (simpl; by rewrite !lookup_delete_ne).
  unfold ret, with_fs_log. simpl.
  eexists _, _. split; [reflexivity|]. simpl. split; [reflexivity|].
  rewrite <- !app_assoc. split; reflexivity.
Qed.

Lemma all_labels_dirs_keeps (m m' : gmap string node) :
  all_labels_dirs m → keeps_dirs m m' → all_labels_dirs m'.
Proof. intros Hall Hkeep d. apply Hkeep, Hall. Qed.

Lemma after_reset_all_dirs (m : gmap string node) : all_labels_dirs (after_reset m).
Proof. intros d. by rewrite after_reset_lookup. Qed.

(** One strategy of the harness: started with the four directories in place
    and its own empty, it ends with the four still in place at every moment. *)
Lemma strategy_step (d : Dirs) (chunks : list string) (w : world) :
  all_labels_dirs (fs w) → fs w !! value d = Some (Dir ∅) →
  ∃ (r : list (event * gmap string node)) (w' : world),
    strategy d chunks w = (Ok tt, w') ∧
    log w' = log w ++ r ∧
    strategy_run d chunks r ∧
    Forall (λ e, all_labels_dirs e.2) r ∧
    fs w' = <[value d := Dir (expected_files chunks)]> (fs w).
Proof.
  intros Hall Hd.
  destruct (strategy_ok d chunks w Hd)
    as (l & t & w' & Hrun & Hfs & Hlog & Hin & Hkeep & Hperm & Hseq).
  exists (l ++ [(EvPrint (timer_line (timer_label d) t), fs w')]), w'.
  split; [done|]. split; [done|]. split; [by exists l, t, (fs w')|]. split; [|done].
  apply Forall_app. split.
  - eapply Forall_impl; [exact Hkeep|]. intros e He.
    by apply (all_labels_dirs_keeps (fs w)).
  - constructor; [|constructor]. simpl. rewrite Hfs.
    apply (all_labels_dirs_keeps (fs w)); [done|]. apply keeps_dirs_insert_dir.
Qed.

Lemma cleanup_forgets_the_directories (m : gmap string node) (a b c e : node) :
  after_cleanup
    (<["file" := a]> (<["executor" := b]> (<["aiofile" := c]>
       (<["aiofiles" := e]> (after_reset m))))) = after_cleanup m.
Proof.
  unfold after_cleanup, after_reset. simpl. apply map_eq. intros k.
  destruct (decide (k = "executor")) as [->|H1];
    [by repeat (rewrite lookup_delete_eq || rewrite lookup_delete_ne by done)|].
  rewrite !(lookup_delete_ne _ "executor") by done.
  destruct (decide (k = "file")) as [->|H2];
    [by repeat (rewrite lookup_delete_eq || rewrite lookup_delete_ne by done)|].
  rewrite !(lookup_delete_ne _ "file") by done.
  destruct (decide (k = "aiofile")) as [->|H3];
    [by repeat (rewrite lookup_delete_eq || rewrite lookup_delete_ne by done)|].
  rewrite !(lookup_delete_ne _ "aiofile") by done.
  destruct (decide (k = "aiofiles")) as [->|H4];
    [by rewrite !lookup_delete_eq|].
  rewrite !(lookup_delete_ne _ "aiofiles") by done.
  by rewrite !lookup_insert_ne.
Qed.

(** The whole of [test], from a working directory in which no label is taken
    by a regular file. *)
Lemma test_ok (chunks : list string) (w : world) :
  labels_free (fs w) →
  ∃ (pre rA rB rD rC post : list (event * gmap string node)) (w' : world),
    test chunks w = (Ok tt, w') ∧
    log w' = log w ++ pre ++ rA ++ rB ++ rD ++ rC ++ post ∧
    pre.*1 = reset_events (fs w) ∧
    (∃ e0, last pre = Some e0 ∧ all_labels_dirs e0.2) ∧
    strategy_run AIOFILES chunks rA ∧ strategy_run AIOFILE chunks rB ∧
    strategy_run EXECUTOR chunks rD ∧ strategy_run FILE chunks rC ∧
    Forall (λ e, all_labels_dirs e.2) (rA ++ rB ++ rD ++ rC) ∧
    post.*1 = cleanup_events ∧
    fs w' = after_cleanup (fs w).
Proof.
  intros Hfree. unfold test.
  destruct (reset_all_ok w Hfree) as (pre & w0 & Hrun0 & Hfs0 & Hlog0 & Hpre & e0 & Hlast & He0).
  unfold bind at 1. rewrite Hrun0.
  destruct (strategy_step AIOFILES chunks w0) as (rA & wA & HrunA & HlogA & HrA & HsA & HfsA).
  { rewrite Hfs0. apply after_reset_all_dirs. }
  { rewrite Hfs0. apply after_reset_lookup. }
  unfold bind at 1. change (test_aiofiles chunks) with (strategy AIOFILES chunks).
  rewrite HrunA.
  assert (HallA : all_labels_dirs (fs wA)).
  { rewrite HfsA. eapply all_labels_dirs_keeps; [|apply keeps_dirs_insert_dir].
    rewrite Hfs0. apply after_reset_all_dirs. }
  destruct (strategy_step AIOFILE chunks wA HallA) as (rB & wB & HrunB & HlogB & HrB & HsB & HfsB).
  { rewrite HfsA, Hfs0. simpl. rewrite lookup_insert_ne by done.
    apply (after_reset_lookup _ AIOFILE). }
  unfold bind at 1. change (test_aiofile chunks) with (strategy AIOFILE chunks).
  rewrite HrunB.
  assert (HallB : all_labels_dirs (fs wB)).
  { rewrite HfsB. eapply all_labels_dirs_keeps; [exact HallA|apply keeps_dirs_insert_dir]. }
  destruct (strategy_step EXECUTOR chunks wB HallB) as (rD & wD & HrunD & HlogD & HrD & HsD & HfsD).
  { rewrite HfsB, HfsA, Hfs0. simpl. rewrite !lookup_insert_ne by done.
    apply (after_reset_lookup _ EXECUTOR). }
  unfold bind at 1. change (test_executor chunks) with (strategy EXECUTOR chunks).
  rewrite HrunD.
  assert (HallD : all_labels_dirs (fs wD)).
  { rewrite HfsD. eapply all_labels_dirs_keeps; [exact HallB|apply keeps_dirs_insert_dir]. }
  destruct (strategy_step FILE chunks wD HallD) as (rC & wC & HrunC & HlogC & HrC & HsC & HfsC).
  { rewrite HfsD, HfsB, HfsA, Hfs0. simpl. rewrite !lookup_insert_ne by done.
    apply (after_reset_lookup _ FILE). }
  unfold bind at 1. change (test_file chunks) with (strategy FILE chunks).
  rewrite HrunC.
  assert (HallC : all_labels_dirs (fs wC)).
  { rewrite HfsC. eapply all_labels_dirs_keeps; [exact HallD|apply keeps_dirs_insert_dir]. }
  destruct (cleanup_all_ok wC HallC) as (post & w' & Hrun' & Hfs' & Hlog' & Hpost).
  exists pre, rA, rB, rD, rC, post, w'. split; [exact Hrun'|].
  split. { rewrite Hlog', HlogC, HlogD, HlogB, HlogA, Hlog0. by rewrite <- !app_assoc. }
  split; [done|].
  split. { exists e0. split; [done|]. rewrite He0. apply after_reset_all_dirs. }
  do 4 (split; [done|]).
  split. { rewrite !Forall_app. by repeat split. }
  split; [done|].
  rewrite Hfs', HfsC, HfsD, HfsB, HfsA, Hfs0. simpl value.
  apply cleanup_forgets_the_directories.
Qed.

Lemma prints_app (l1 l2 : list (event * gmap string node)) :
  prints (l1 ++ l2) = prints l1 ++ prints l2.
Proof. apply omap_app. Qed.

Lemma prints_none (l : list (event * gmap string node)) :
  Forall (λ e, ¬ print_event e.1) l → prints l = [].
Proof.
  induction 1 as [|[e m] l He _ IH]; [done|].
  unfold prints in *. simpl in *. destruct e; try done; by destruct He.
Qed.

Lemma file_event_not_print (d : string) (e : event) :
  file_event_in d e → ¬ print_event e ∧ ¬ workspace_event e.
Proof. destruct e; simpl; tauto. Qed.

Lemma strategy_run_prints (d : Dirs) (chunks : list string)
    (r : list (event * gmap string node)) :
  strategy_run d chunks r → ∃ t, prints r = [timer_line (timer_label d) t].
Proof.
  intros (l0 & t & m & -> & Hin & _ & _). exists t.
  rewrite prints_app, prints_none; [done|].
  eapply Forall_impl; [exact Hin|]. intros e He.
  by apply (file_event_not_print (value d)).
Qed.

Lemma strategy_run_no_workspace_event (d : Dirs) (chunks : list string)
    (r : list (event * gmap string node)) :
  strategy_run d chunks r → Forall (λ e, ¬ workspace_event e.1) r.
Proof.
  intros (l0 & t & m & -> & Hin & _ & _). apply Forall_app. split.
  - eapply Forall_impl; [exact Hin|]. intros e He.
    by apply (file_event_not_print (value d)).
  - constructor; [|constructor]. simpl. tauto.
Qed.

Lemma prints_of_events (l : list (event * gmap string node)) :
  Forall (λ e, ¬ print_event e) (l.*1) → prints l = [].
Proof. intros H. apply prints_none. by rewrite Forall_fmap in H. Qed.

Lemma reset_events_no_print (m : gmap string node) :
  Forall (λ e, ¬ print_event e) (reset_events m).
Proof.
  unfold reset_events. simpl.
  case_label_dirs m; simpl; repeat constructor; tauto.
Qed.

Lemma cleanup_events_no_print : Forall (λ e, ¬ print_event e) cleanup_events.
Proof. unfold cleanup_events. simpl. repeat constructor; tauto. Qed.

Lemma first_line : "n=" +:+ pretty 10%Z +:+ ", chunk_size=" +:+ pretty (1024 * 10)%Z
                   = "n=10, chunk_size=10240".
Proof. vm_compute. reflexivity. Qed.

(** [main] up to the call of [test]: the first line, then ten chunks of
    10240 characters, whatever the world. *)
Lemma main_generates (w : world) :
  ∃ (chunks : list string) (w1 : world),
    generate_random_chunks 10 10240 (emit (EvPrint "n=10, chunk_size=10240") w)
      = (Ok chunks, w1) ∧
    main w = try_finally (test chunks) (print "Exited") w1 ∧
    fs w1 = fs w ∧
    log w1 = log w ++ [(EvPrint "n=10, chunk_size=10240", fs w)] ∧
    Z.of_nat (length chunks) = 10%Z ∧
    Forall (λ s, Z.of_nat (String.length s) = 10240%Z ∧
                 Forall (λ c, in_alphabet c = true) (list_ascii_of_string s)) chunks.
Proof.
  destruct (generate_random_chunks_ok 10 10240
              (emit (EvPrint "n=10, chunk_size=10240") w)) as (chunks & Hgen & Hlen & HF).
  exists chunks, (drawn (Z.to_nat 10 * Z.to_nat 10240)
                    (emit (EvPrint "n=10, chunk_size=10240") w)).
  split; [exact Hgen|]. split.
  - unfold main, bind, print. rewrite first_line.
    change (1024 * 10)%Z with 10240%Z. by rewrite Hgen.
  - split; [reflexivity|]. split; [reflexivity|]. split; [lia|].
    eapply Forall_impl; [exact HF|]. intros s [Hs Ha]. split; [lia|done].
Qed.

(** A whole successful run. *)
Lemma main_ok (w : world) :
  labels_free (fs w) →
  ∃ (chunks : list string) (pre rA rB rD rC post : list (event * gmap string node))
    (w' : world),
    main w = (Ok tt, w') ∧
    log w' = log w ++ [(EvPrint "n=10, chunk_size=10240", fs w)] ++
             pre ++ rA ++ rB ++ rD ++ rC ++ post ++ [(EvPrint "Exited", fs w')] ∧
    pre.*1 = reset_events (fs w) ∧
    strategy_run AIOFILES chunks rA ∧ strategy_run AIOFILE chunks rB ∧
    strategy_run EXECUTOR chunks rD ∧ strategy_run FILE chunks rC ∧
    post.*1 = cleanup_events ∧
    fs w' = after_cleanup (fs w).
Proof.
  intros Hfree.
  destruct (main_generates w) as (chunks & w1 & _ & Hmain & Hfs1 & Hlog1 & _).
  destruct (test_ok chunks w1) as
    (pre & rA & rB & rD & rC & post & w2 & Hrun & Hlog & Hpre & _ & HA & HB & HD & HC & _ & Hpost & Hfs2).
  { by rewrite Hfs1. }
  exists chunks, pre, rA, rB, rD, rC, post, (emit (EvPrint "Exited") w2).
  rewrite Hmain. unfold try_finally, print. rewrite Hrun.
  split; [done|]. simpl. rewrite Hlog, Hlog1, Hfs1 in *.
  split; [by rewrite <- !app_assoc|]. by repeat split.
Qed.

Lemma labels_free_empty : labels_free ∅.
Proof. intros d. by rewrite lookup_empty. Qed.

(** C6. From a working directory in which no label's name is taken by a
    regular file, [test] returns normally and its log is three stretches:
    first the reset of all four labels (per label an [rmtree] if the directory
    was there, then a [mkdir]), after which all four directories exist; then
    the four strategies' stretches, in which no directory is created or
    removed and all four directories exist at every moment; last one [rmtree]
    per label, after which none of the four exists. *)
Theorem harness_resets_before_and_cleans_after (chunks : list string) (w : world) :
  labels_free (fs w) →
  ∃ (pre mid post : list (event * gmap string node)) (w' : world),
    test chunks w = (Ok tt, w') ∧
    log w' = log w ++ pre ++ mid ++ post ∧
    pre.*1 = reset_events (fs w) ∧
    (∃ e0, last pre = Some e0 ∧ all_labels_dirs e0.2) ∧
    (∃ rA rB rD rC,
       mid = rA ++ rB ++ rD ++ rC ∧
       strategy_run AIOFILES chunks rA ∧ strategy_run AIOFILE chunks rB ∧
       strategy_run EXECUTOR chunks rD ∧ strategy_run FILE chunks rC) ∧
    Forall (λ e, all_labels_dirs e.2 ∧ ¬ workspace_event e.1) mid ∧
    post.*1 = cleanup_events ∧
    (∀ d : Dirs, fs w' !! value d = None).
Proof.
  intros Hfree.
  destruct (test_ok chunks w Hfree) as
    (pre & rA & rB & rD & rC & post & w' & Hrun & Hlog & Hpre & Hlast
       & HA & HB & HD & HC & Hdirs & Hpost & Hfs).
  exists pre, (rA ++ rB ++ rD ++ rC), post, w'.
  split; [done|]. split; [by rewrite Hlog, <- !app_assoc|].
  split; [done|]. split; [done|].
  split; [by exists rA, rB, rD, rC|].
  split; [|split; [done|]].
  - apply Forall_and. split; [done|].
    rewrite !Forall_app. repeat split;
      eauto using strategy_run_no_workspace_event.
  - intros d. rewrite Hfs. apply after_cleanup_lookup.
Qed.

Lemma harness_resets_before_and_cleans_after_witness :
  ∃ (pre mid post : list (event * gmap string node)) (w' : world),
    test ["AB"; "CDE"] (demo_world {["aiofile" := Dir {["q" := File "old"]}]})
      = (Ok tt, w') ∧
    log w' = log (demo_world {["aiofile" := Dir {["q" := File "old"]}]})
             ++ pre ++ mid ++ post ∧
    pre.*1 = reset_events (fs (demo_world {["aiofile" := Dir {["q" := File "old"]}]})) ∧
    (∃ e0, last pre = Some e0 ∧ all_labels_dirs e0.2) ∧
    (∃ rA rB rD rC,
       mid = rA ++ rB ++ rD ++ rC ∧
       strategy_run AIOFILES ["AB"; "CDE"] rA ∧ strategy_run AIOFILE ["AB"; "CDE"] rB ∧
       strategy_run EXECUTOR ["AB"; "CDE"] rD ∧ strategy_run FILE ["AB"; "CDE"] rC) ∧
    Forall (λ e, all_labels_dirs e.2 ∧ ¬ workspace_event e.1) mid ∧
    post.*1 = cleanup_events ∧
    (∀ d : Dirs, fs w' !! value d = None).
Proof.
  apply (harness_resets_before_and_cleans_after ["AB"; "CDE"]
           (demo_world {["aiofile" := Dir {["q" := File "old"]}]})).
  intros []; reflexivity.
Defined.

(** C10. From a working directory in which no label's name is taken by a
    regular file, the log of [test] is, between the reset and the cleanup, the
    stretch of aiofiles, then that of aiofile, then that of the pooled
    executor, then that of the direct strategy: each stretch holds only calls
    on files of its own directory, all of them, and ends with its own timer's
    line, so a strategy has finished when the next one starts, and the pool
    runs before the direct strategy. *)
Theorem harness_runs_strategies_in_fixed_order (chunks : list string) (w : world) :
  labels_free (fs w) →
  ∃ (pre rA rB rD rC post : list (event * gmap string node)) (w' : world),
    test chunks w = (Ok tt, w') ∧
    log w' = log w ++ pre ++ rA ++ rB ++ rD ++ rC ++ post ∧
    pre.*1 = reset_events (fs w) ∧
    strategy_run AIOFILES chunks rA ∧
    strategy_run AIOFILE chunks rB ∧
    strategy_run EXECUTOR chunks rD ∧
    strategy_run FILE chunks rC ∧
    post.*1 = cleanup_events.
Proof.
  intros Hfree.
  destruct (test_ok chunks w Hfree) as
    (pre & rA & rB & rD & rC & post & w' & Hrun & Hlog & Hpre & _
       & HA & HB & HD & HC & _ & Hpost & _).
  by exists pre, rA, rB, rD, rC, post, w'.
Qed.

Lemma harness_runs_strategies_in_fixed_order_witness :
  ∃ (pre rA rB rD rC post : list (event * gmap string node)) (w' : world),
    test ["AB"; "CDE"] (demo_world ∅) = (Ok tt, w') ∧
    log w' = log (demo_world ∅) ++ pre ++ rA ++ rB ++ rD ++ rC ++ post ∧
    pre.*1 = reset_events (fs (demo_world ∅)) ∧
    strategy_run AIOFILES ["AB"; "CDE"] rA ∧
    strategy_run AIOFILE ["AB"; "CDE"] rB ∧
    strategy_run EXECUTOR ["AB"; "CDE"] rD ∧
    strategy_run FILE ["AB"; "CDE"] rC ∧
    post.*1 = cleanup_events.
Proof.
  apply (harness_runs_strategies_in_fixed_order ["AB"; "CDE"] (demo_world ∅)).
  intros []; reflexivity.
Defined.

Example test_log_on_two_chunks :
  map fst (log (test ["AB"; "CDE"] (demo_world ∅)).2) =
    [EvMkdir ["aiofiles"]; EvMkdir ["aiofile"]; EvMkdir ["file"]; EvMkdir ["executor"];
     EvOpen ["aiofiles"; "0.txt"]; EvWrite ["aiofiles"; "0.txt"] "AB";
     EvClose ["aiofiles"; "0.txt"]; EvOpen ["aiofiles"; "1.txt"];
     EvWrite ["aiofiles"; "1.txt"] "CDE"; EvClose ["aiofiles"; "1.txt"];
     EvPrint "Dirs.AIOFILES: 1.234567 ms";
     EvOpen ["aiofile"; "0.txt"]; EvWrite ["aiofile"; "0.txt"] "AB";
     EvClose ["aiofile"; "0.txt"]; EvOpen ["aiofile"; "1.txt"];
     EvWrite ["aiofile"; "1.txt"] "CDE"; EvClose ["aiofile"; "1.txt"];
     EvPrint "Dirs.AIOFILE : 1.234567 ms";
     EvOpen ["executor"; "0.txt"]; EvWrite ["executor"; "0.txt"] "AB";
     EvOpen ["executor"; "1.txt"]; EvClose ["executor"; "0.txt"];
     EvWrite ["executor"; "1.txt"] "CDE"; EvClose ["executor"; "1.txt"];
     EvPrint "Dirs.EXECUTOR: 1.234567 ms";
     EvOpen ["file"; "0.txt"]; EvWrite ["file"; "0.txt"] "AB";
     EvClose ["file"; "0.txt"]; EvOpen ["file"; "1.txt"];
     EvWrite ["file"; "1.txt"] "CDE"; EvClose ["file"; "1.txt"];
     EvPrint "Dirs.FILE    : 1.234567 ms";
     EvRmtree ["aiofiles"]; EvRmtree ["aiofile"]; EvRmtree ["file"];
     EvRmtree ["executor"]].
Proof. vm_compute. reflexivity. Qed.

Lemma digit_char_is_digit (d : N) : is_digit (digit_char d) = true.
Proof.
  destruct d as [|p]; [reflexivity|].
  do 4 (try (destruct p as [p|p|]; try reflexivity)).
Qed.

Lemma frac6_six_digits (ns : N) :
  String.length (frac6 ns) = 6 ∧
  Forall (λ c, is_digit c = true) (list_ascii_of_string (frac6 ns)).
Proof.
  unfold frac6. rewrite length_string_of_list_ascii, list_ascii_of_string_of_list_ascii.
  split; [reflexivity|]. apply Forall_fmap, Forall_forall.
  intros k _. apply digit_char_is_digit.
Qed.

(** C7, as the code has it. A run from a working directory in which no label's
    name is taken by a regular file returns normally and prints exactly six
    lines: [n=10, chunk_size=10240] before anything else happens; one line per
    strategy, in the order the strategies run, [<label>: <ms> ms], where the
    label is the enum member's qualified name padded to a common width
    ([Dirs.AIOFILES], [Dirs.AIOFILE ], [Dirs.EXECUTOR], [Dirs.FILE    ]), not
    the directory's name, and [<ms>] has exactly six digits after the point;
    and [Exited] after the cleanup. *)
Theorem main_console_output (w : world) :
  labels_free (fs w) →
  ∃ (tA tB tD tC : N) (pre mid post : list (event * gmap string node)) (w' : world),
    main w = (Ok tt, w') ∧
    stdout w' = stdout w ++
      ["n=10, chunk_size=10240";
       "Dirs.AIOFILES: " +:+ format_6f tA +:+ " ms";
       "Dirs.AIOFILE : " +:+ format_6f tB +:+ " ms";
       "Dirs.EXECUTOR: " +:+ format_6f tD +:+ " ms";
       "Dirs.FILE    : " +:+ format_6f tC +:+ " ms";
       "Exited"] ∧
    log w' = log w ++ [(EvPrint "n=10, chunk_size=10240", fs w)] ++
             pre ++ mid ++ post ++ [(EvPrint "Exited", fs w')] ∧
    pre.*1 = reset_events (fs w) ∧
    post.*1 = cleanup_events ∧
    (∀ t : N,
       format_6f t = pretty (t `div` 1000000)%N +:+ "." +:+ frac6 t ∧
       String.length (frac6 t) = 6 ∧
       Forall (λ c, is_digit c = true) (list_ascii_of_string (frac6 t))).
Proof.
  intros Hfree.
  destruct (main_ok w Hfree) as
    (chunks & pre & rA & rB & rD & rC & post & w' & Hrun & Hlog & Hpre
       & HA & HB & HD & HC & Hpost & _).
  destruct (strategy_run_prints _ _ _ HA) as [tA HpA].
  destruct (strategy_run_prints _ _ _ HB) as [tB HpB].
  destruct (strategy_run_prints _ _ _ HD) as [tD HpD].
  destruct (strategy_run_prints _ _ _ HC) as [tC HpC].
  exists tA, tB, tD, tC, pre, (rA ++ rB ++ rD ++ rC), post, w'.
  split; [done|]. split.
  - unfold stdout. rewrite Hlog, !prints_app, HpA, HpB, HpD, HpC.
    rewrite (prints_of_events pre) by (rewrite Hpre; apply reset_events_no_print).
    rewrite (prints_of_events post) by (rewrite Hpost; apply cleanup_events_no_print).
    reflexivity.
  - split; [by rewrite Hlog, <- !app_assoc|]. split; [done|]. split; [done|].
    intros t. split; [reflexivity|]. apply frac6_six_digits.
Qed.

Lemma main_console_output_witness :
  ∃ (tA tB tD tC : N) (pre mid post : list (event * gmap string node)) (w' : world),
    main (plain_world ∅) = (Ok tt, w') ∧
    stdout w' = stdout (plain_world ∅) ++
      ["n=10, chunk_size=10240";
       "Dirs.AIOFILES: " +:+ format_6f tA +:+ " ms";
       "Dirs.AIOFILE : " +:+ format_6f tB +:+ " ms";
       "Dirs.EXECUTOR: " +:+ format_6f tD +:+ " ms";
       "Dirs.FILE    : " +:+ format_6f tC +:+ " ms";
       "Exited"] ∧
    log w' = log (plain_world ∅) ++
             [(EvPrint "n=10, chunk_size=10240", fs (plain_world ∅))] ++
             pre ++ mid ++ post ++ [(EvPrint "Exited", fs w')] ∧
    pre.*1 = reset_events (fs (plain_world ∅)) ∧
    post.*1 = cleanup_events ∧
    (∀ t : N,
       format_6f t = pretty (t `div` 1000000)%N +:+ "." +:+ frac6 t ∧
       String.length (frac6 t) = 6 ∧
       Forall (λ c, is_digit c = true) (list_ascii_of_string (frac6 t))).
Proof.
  apply (main_console_output (plain_world ∅)).
  intros []; reflexivity.
Defined.

(** C7 as stated fails: the line of the first strategy starts with the enum
    member's qualified name, so it is no line of the form
    [<directory name>: <ms> ms]. *)
Lemma timer_label_is_not_the_directory_name :
  stdout (main (plain_world ∅)).2 !! 1 = Some "Dirs.AIOFILES: 1.234567 ms" ∧
  ∀ ms : string, "Dirs.AIOFILES: 1.234567 ms" ≠ value AIOFILES +:+ ": " +:+ ms +:+ " ms".
Proof.
  split; [vm_compute; reflexivity|].
  intros ms H. discriminate H.
Qed.

(** C9. [main] takes nothing from its environment: whatever the world, it
    first prints [n=10, chunk_size=10240], then generates exactly 10 chunks of
    exactly 10240 characters each, and goes on with [test] on those chunks and
    the final [Exited]. *)
Theorem main_uses_the_two_constants (w : world) :
  ∃ (chunks : list string) (w1 : world),
    generate_random_chunks 10 10240 (emit (EvPrint "n=10, chunk_size=10240") w)
      = (Ok chunks, w1) ∧
    main w = try_finally (test chunks) (print "Exited") w1 ∧
    stdout w1 = stdout w ++ ["n=10, chunk_size=10240"] ∧
    Z.of_nat (length chunks) = 10%Z ∧
    Forall (λ s, Z.of_nat (String.length s) = 10240%Z) chunks.
Proof.
  destruct (main_generates w) as (chunks & w1 & Hgen & Hmain & Hfs & Hlog & Hlen & HF).
  exists chunks, w1. split; [done|]. split; [done|]. split.
  - unfold stdout. by rewrite Hlog, prints_app.
  - split; [done|]. eapply Forall_impl; [exact HF|]. by intros s [Hs _].
Qed.

(** * Further properties of the code *)

(** ** [write_file] *)

Lemma write_file_unfold (p : path) (data : string) :
  write_file p data = with_ (open_w p) close_h (λ h, write_h h data).
Proof. reflexivity. Qed.

(** X1. [write_file] on a name directly under an existing directory, the name
    being free or held by a regular file, returns normally; afterwards the
    file holds exactly [data], whatever it held before (['w+'] truncates), its
    siblings and the rest of the working directory are as they were, and the
    calls made are one open, one write, one close. *)
Theorem write_file_creates_or_replaces (d f data : string) (m : gmap string node)
    (w : world) :
  fs w !! d = Some (Dir m) → is_dir (m !! f) = false →
  ∃ w', write_file [d; f] data w = (Ok tt, w') ∧
        fs w' = <[d := Dir (<[f := File data]> m)]> (fs w) ∧
        (log w').*1 = (log w).*1 ++
                      [EvOpen [d; f]; EvWrite [d; f] data; EvClose [d; f]].
Proof.
  intros Hd Hf. rewrite write_file_unfold, (write_one d f data m w Hd Hf).
  eexists. split; [reflexivity|]. simpl. split; [reflexivity|].
  by rewrite fmap_app.
Qed.

Lemma write_file_creates_or_replaces_witness :
  ∃ w', write_file ["file"; "0.txt"] "AB"
          (plain_world {["file" := Dir {["0.txt" := File "OLD AND LONGER"]}]})
        = (Ok tt, w') ∧
        fs w' = <["file" := Dir (<["0.txt" := File "AB"]> {["0.txt" := File "OLD AND LONGER"]})]>
                  (fs (plain_world {["file" := Dir {["0.txt" := File "OLD AND LONGER"]}]})) ∧
        (log w').*1 =
          (log (plain_world {["file" := Dir {["0.txt" := File "OLD AND LONGER"]}]})).*1 ++
          [EvOpen ["file"; "0.txt"]; EvWrite ["file"; "0.txt"] "AB";
           EvClose ["file"; "0.txt"]].
Proof.
  exact (write_file_creates_or_replaces "file" "0.txt" "AB"
           {["0.txt" := File "OLD AND LONGER"]}
           (plain_world {["file" := Dir {["0.txt" := File "OLD AND LONGER"]}]})
           eq_refl eq_refl).
Defined.

(** X2. [write_file] fails at the open, before anything is created or
    logged: with [FileNotFoundError] when the directory is missing, with
    [NotADirectoryError] when the directory's name is held by a regular file,
    with [IsADirectoryError] when the file's name is held by a directory.  In
    each case the world is exactly as before. *)
Theorem write_file_fails_before_touching (d f data : string) (w : world) :
  (fs w !! d = None →
     write_file [d; f] data w = (Raise (FileNotFoundError [d; f]), w)) ∧
  (∀ x, fs w !! d = Some (File x) →
     write_file [d; f] data w = (Raise (NotADirectoryError [d; f]), w)) ∧
  (∀ m m', fs w !! d = Some (Dir m) → m !! f = Some (Dir m') →
     write_file [d; f] data w = (Raise (IsADirectoryError [d; f]), w)).
Proof.
  rewrite write_file_unfold. unfold with_, bind, open_w. rewrite stat_at_2.
  change (parent [d; f]) with [d]. rewrite stat_at_1.
  split; [|split].
  - by intros ->.
  - by intros x ->.
  - by intros m m' -> ->.
Qed.

Lemma write_file_fails_before_touching_witness :
  write_file ["file"; "0.txt"] "AB" (plain_world ∅)
    = (Raise (FileNotFoundError ["file"; "0.txt"]), plain_world ∅) ∧
  write_file ["file"; "0.txt"] "AB" (plain_world {["file" := File "x"]})
    = (Raise (NotADirectoryError ["file"; "0.txt"]), plain_world {["file" := File "x"]}) ∧
  write_file ["file"; "0.txt"] "AB" (plain_world {["file" := Dir {["0.txt" := Dir ∅]}]})
    = (Raise (IsADirectoryError ["file"; "0.txt"]),
       plain_world {["file" := Dir {["0.txt" := Dir ∅]}]}).
Proof.
  split; [|split].
  - exact (proj1 (write_file_fails_before_touching "file" "0.txt" "AB" (plain_world ∅))
             eq_refl).
  - exact (proj1 (proj2 (write_file_fails_before_touching "file" "0.txt" "AB"
                           (plain_world {["file" := File "x"]}))) "x" eq_refl).
  - exact (proj2 (proj2 (write_file_fails_before_touching "file" "0.txt" "AB"
                           (plain_world {["file" := Dir {["0.txt" := Dir ∅]}]})))
             {["0.txt" := Dir ∅]} ∅ eq_refl eq_refl).
Defined.

(** ** [make_dir] and [delete_dir] *)

Lemma make_dir_regular_file dirname data w :
  fs w !! dirname = Some (File data) →
  make_dir dirname w = (Raise (FileExistsError [dirname]), w).
Proof.
  intros H. unfold make_dir, mkdir, Path. simpl.
  unfold os_mkdir. rewrite stat_at_1, H.
  unfold is_dir_. rewrite stat_at_1, H. reflexivity.
Qed.

(** X3. [make_dir] on a label creates an empty directory when nothing is
    there; when the directory is already there it returns normally and leaves
    the world, the directory's contents included, exactly as it was
    ([exist_ok=True] does not clear); when the name is held by a regular file
    it raises [FileExistsError] and changes nothing. *)
Theorem make_dir_creates_keeps_or_refuses (d : Dirs) (w : world) :
  (fs w !! value d = None →
     ∃ w', make_dir (value d) w = (Ok tt, w') ∧
           fs w' = <[value d := Dir ∅]> (fs w) ∧
           log w' = log w ++ [(EvMkdir [value d], fs w')]) ∧
  (∀ m, fs w !! value d = Some (Dir m) → make_dir (value d) w = (Ok tt, w)) ∧
  (∀ data, fs w !! value d = Some (File data) →
     make_dir (value d) w = (Raise (FileExistsError [value d]), w)).
Proof.
  split; [|split].
  - intros H. rewrite make_dir_absent by done. by eexists.
  - intros m H. by apply (make_dir_present _ m).
  - intros data H. by apply (make_dir_regular_file _ data).
Qed.

Lemma make_dir_creates_keeps_or_refuses_witness :
  (∃ w', make_dir (value FILE) (plain_world ∅) = (Ok tt, w') ∧
         fs w' = <[value FILE := Dir ∅]> (fs (plain_world ∅)) ∧
         log w' = log (plain_world ∅) ++ [(EvMkdir [value FILE], fs w')]) ∧
  make_dir (value FILE) (plain_world {["file" := Dir {["0.txt" := File "AB"]}]})
    = (Ok tt, plain_world {["file" := Dir {["0.txt" := File "AB"]}]}) ∧
  make_dir (value FILE) (plain_world {["file" := File "x"]})
    = (Raise (FileExistsError [value FILE]), plain_world {["file" := File "x"]}).
Proof.
  split; [|split].
  - exact (proj1 (make_dir_creates_keeps_or_refuses FILE (plain_world ∅)) eq_refl).
  - exact (proj1 (proj2 (make_dir_creates_keeps_or_refuses FILE
             (plain_world {["file" := Dir {["0.txt" := File "AB"]}]})))
             {["0.txt" := File "AB"]} eq_refl).
  - exact (proj2 (proj2 (make_dir_creates_keeps_or_refuses FILE
             (plain_world {["file" := File "x"]}))) "x" eq_refl).
Defined.

(** X4. [delete_dir] on a label whose name is held by a regular file raises
    [NotADirectoryError] ([Path.exists()] is true, [shutil.rmtree] refuses)
    and leaves the world, the file included, exactly as it was. *)
Theorem delete_dir_refuses_regular_file (d : Dirs) (data : string) (w : world) :
  fs w !! value d = Some (File data) →
  delete_dir (value d) w = (Raise (NotADirectoryError [value d]), w).
Proof. apply delete_dir_regular_file. Qed.

Lemma delete_dir_refuses_regular_file_witness :
  delete_dir (value EXECUTOR) (plain_world {["executor" := File "x"]})
    = (Raise (NotADirectoryError [value EXECUTOR]), plain_world {["executor" := File "x"]}).
Proof.
  exact (delete_dir_refuses_regular_file EXECUTOR "x"
           (plain_world {["executor" := File "x"]}) eq_refl).
Defined.

(** X5. [make_dir] followed by [delete_dir] on a label whose name is not held
    by a regular file returns normally and leaves the label's path absent and
    every other entry as it was: from a state without the directory the file
    system is back where it started, from a state with it the directory and
    its contents are gone. *)
Theorem make_then_delete_leaves_no_directory (d : Dirs) (w : world) :
  is_file (fs w !! value d) = false →
  ∃ w', (make_dir (value d) ;; delete_dir (value d)) w = (Ok tt, w') ∧
        fs w' = delete (value d) (fs w) ∧
        (fs w !! value d = None → fs w' = fs w).
Proof.
  intros Hfree. unfold bind.
  destruct (fs w !! value d) as [[data|m]|] eqn:Hd; [done| |].
  - rewrite (make_dir_present _ m) by done.
    rewrite (delete_dir_present _ m) by done.
    eexists. split; [reflexivity|]. simpl. by split.
  - rewrite make_dir_absent by done.
    rewrite (delete_dir_present _ ∅) by (simpl; apply lookup_insert_eq).
    eexists. split; [reflexivity|]. simpl.
    rewrite delete_insert_eq. split; [done|]. intros _. by apply delete_id.
Qed.

Lemma make_then_delete_leaves_no_directory_witness :
  ∃ w', (make_dir (value FILE) ;; delete_dir (value FILE))
          (plain_world {["keep" := File "x"]}) = (Ok tt, w') ∧
        fs w' = delete (value FILE) (fs (plain_world {["keep" := File "x"]})) ∧
        (fs (plain_world {["keep" := File "x"]}) !! value FILE = None →
         fs w' = fs (plain_world {["keep" := File "x"]})).
Proof.
  exact (make_then_delete_leaves_no_directory FILE
           (plain_world {["keep" := File "x"]}) eq_refl).
Defined.

(** ** [random_string] and [generate_random_chunks] *)












(** ** [main] and [test] beyond the successful run *)

(** X10. Whatever [test] does, [main] ends the same way: with the value or
    the exception of [test], after printing [Exited] as its last line (the
    [finally] block runs on both exits and does not swallow the exception). *)
Theorem main_ends_with_Exited_and_the_outcome_of_test (w : world) :
  ∃ (chunks : list string) (w1 : world),
    generate_random_chunks 10 10240 (emit (EvPrint "n=10, chunk_size=10240") w)
      = (Ok chunks, w1) ∧
    main w = ((test chunks w1).1, emit (EvPrint "Exited") (test chunks w1).2) ∧
    last (stdout (main w).2) = Some "Exited".
Proof.
  destruct (main_generates w) as (chunks & w1 & Hgen & Hmain & _).
  exists chunks, w1. split; [done|].
  assert (Hm : main w = ((test chunks w1).1, emit (EvPrint "Exited") (test chunks w1).2)).
  { rewrite Hmain. unfold try_finally, print. by destruct (test chunks w1). }
  split; [done|]. rewrite Hm. simpl. rewrite stdout_emit_print. apply last_snoc.
Qed.

Lemma reset_blocked dirname w :
  is_file (fs w !! dirname) = true →
  reset dirname w = (Raise (NotADirectoryError [dirname]), w).
Proof.
  intros H. destruct (fs w !! dirname) as [[data|m]|] eqn:Hd; try done.
  unfold reset, bind. by rewrite (delete_dir_regular_file _ data).
Qed.

Lemma reset_log_workspace (m1 m2 : gmap string node) (dirname : string) (b : bool) :
  Forall (λ e : event * gmap string node, workspace_event e.1)
    ((if b then [(EvRmtree [dirname], m1)] else []) ++ [(EvMkdir [dirname], m2)]).
Proof. destruct b; repeat constructor. Qed.

Lemma test_blocked (chunks : list string) (w : world) (d : Dirs) :
  first_blocked (fs w) = Some d →
  ∃ (l : list (event * gmap string node)) (w' : world),
    test chunks w = (Raise (NotADirectoryError [value d]), w') ∧
    log w' = log w ++ l ∧
    Forall (λ e, workspace_event e.1) l ∧
    stdout w' = stdout w.
Proof.
  intros Hblocked.
  assert (Hloop : ∃ (l : list (event * gmap string node)) (w' : world),
    for_each (λ dirname, delete_dir (value dirname) ;; make_dir (value dirname))
      all_Dirs w = (Raise (NotADirectoryError [value d]), w') ∧
    log w' = log w ++ l ∧ Forall (λ e, workspace_event e.1) l).
  { unfold first_blocked, all_Dirs in Hblocked. simpl in Hblocked.
    unfold all_Dirs, for_each. simpl value.
    change (delete_dir "aiofiles" ;; make_dir "aiofiles") with (reset "aiofiles").
    change (delete_dir "aiofile" ;; make_dir "aiofile") with (reset "aiofile").
    change (delete_dir "file" ;; make_dir "file") with (reset "file").
    change (delete_dir "executor" ;; make_dir "executor") with (reset "executor").
    destruct (is_file (fs w !! "aiofiles")) eqn:H1.
    { injection Hblocked as <-. unfold bind at 1. rewrite reset_blocked by done.
      exists [], w. by rewrite app_nil_r. }
    unfold bind at 1. rewrite reset_ok by done.
    destruct (is_file (fs w !! "aiofile")) eqn:H2.
    { injection Hblocked as <-. unfold bind at 1.
      rewrite reset_blocked by (simpl; by rewrite lookup_insert_ne).
      eexists _, _. split; [reflexivity|]. split; [reflexivity|].
      apply reset_log_workspace. }
    unfold bind at 1. rewrite reset_ok by (simpl; by rewrite lookup_insert_ne).
    destruct (is_file (fs w !! "file")) eqn:H3.
    { injection Hblocked as <-. unfold bind at 1.
      rewrite reset_blocked by (simpl; by rewrite !lookup_insert_ne).
      eexists _, _. split; [reflexivity|]. simpl. rewrite <- !app_assoc.
      split; [reflexivity|]. rewrite app_assoc.
      apply Forall_app; split; apply reset_log_workspace. }
    unfold bind at 1. rewrite reset_ok by (simpl; by rewrite !lookup_insert_ne).
    destruct (is_file (fs w !! "executor")) eqn:H4; [|done].
    injection Hblocked as <-. unfold bind at 1.
    rewrite reset_blocked by (simpl; by rewrite !lookup_insert_ne).
    eexists _, _. split; [reflexivity|]. simpl. rewrite <- !app_assoc.
    split; [reflexivity|]. rewrite app_assoc.
    apply Forall_app; split; [apply reset_log_workspace|].
    rewrite app_assoc. apply Forall_app; split; apply reset_log_workspace. }
  destruct Hloop as (l & w' & Hrun & Hlog & Hl).
  exists l, w'. unfold test, bind at 1. rewrite Hrun.
  split; [done|]. split; [done|]. split; [done|].
  unfold stdout. rewrite Hlog, prints_app, (prints_none l), app_nil_r; [done|].
  eapply Forall_impl; [exact Hl|]. intros [[] ?]; simpl; tauto.
Qed.

(** X11. When a label's name is held by a regular file, [test] raises
    [NotADirectoryError] for the first such label in the order of the enum,
    from the reset loop: up to there it has only removed and created
    directories, no strategy has run and nothing has been printed. *)
Theorem test_stops_at_first_blocked_label (chunks : list string) (w : world) (d : Dirs) :
  first_blocked (fs w) = Some d →
  ∃ (l : list (event * gmap string node)) (w' : world),
    test chunks w = (Raise (NotADirectoryError [value d]), w') ∧
    log w' = log w ++ l ∧
    Forall (λ e, workspace_event e.1) l ∧
    stdout w' = stdout w.
Proof. apply test_blocked. Qed.

Lemma test_stops_at_first_blocked_label_witness :
  ∃ (l : list (event * gmap string node)) (w' : world),
    test ["AB"] (plain_world {["file" := File "x"; "executor" := File "y"]})
      = (Raise (NotADirectoryError [value FILE]), w') ∧
    log w' = log (plain_world {["file" := File "x"; "executor" := File "y"]}) ++ l ∧
    Forall (λ e, workspace_event e.1) l ∧
    stdout w' = stdout (plain_world {["file" := File "x"; "executor" := File "y"]}).
Proof.
  exact (test_stops_at_first_blocked_label ["AB"]
           (plain_world {["file" := File "x"; "executor" := File "y"]}) FILE eq_refl).
Defined.

Lemma after_cleanup_other (m : gmap string node) (k : string) :
  (∀ d : Dirs, k ≠ value d) → after_cleanup m !! k = m !! k.
Proof.
  intros Hk. unfold after_cleanup. simpl.
  pose proof (Hk AIOFILES). pose proof (Hk AIOFILE).
  pose proof (Hk FILE). pose proof (Hk EXECUTOR). simpl in *.
  by rewrite !lookup_delete_ne.
Qed.

(** X12. A successful run of [main] touches nothing in the working directory
    but the four output directories: afterwards none of the four exists
    (whatever they held before is gone), and every entry under another name
    is exactly as it was. *)
Theorem main_touches_only_its_directories (w : world) :
  labels_free (fs w) →
  ∃ w', main w = (Ok tt, w') ∧
        (∀ d : Dirs, fs w' !! value d = None) ∧
        (∀ k, (∀ d : Dirs, k ≠ value d) → fs w' !! k = fs w !! k).
Proof.
  intros Hfree.
  destruct (main_ok w Hfree) as
    (chunks & pre & rA & rB & rD & rC & post & w' & Hrun & _ & _ & _ & _ & _ & _ & _ & Hfs).
  exists w'. split; [done|]. rewrite Hfs. split.
  - apply after_cleanup_lookup.
  - apply after_cleanup_other.
Qed.

Lemma main_touches_only_its_directories_witness :
  ∃ w', main (plain_world {["notes.txt" := File "keep"; "file" := Dir {["old" := File "x"]}]})
          = (Ok tt, w') ∧
        (∀ d : Dirs, fs w' !! value d = None) ∧
        (∀ k, (∀ d : Dirs, k ≠ value d) →
              fs w' !! k =
              fs (plain_world {["notes.txt" := File "keep";
                                "file" := Dir {["old" := File "x"]}]}) !! k).
Proof.
  apply (main_touches_only_its_directories
           (plain_world {["notes.txt" := File "keep"; "file" := Dir {["old" := File "x"]}]})).
  intros []; reflexivity.
Defined.

(** ** Strategies outside the harness's setup *)

(** X13. A sequential strategy run on a directory that already has entries,
    none of the names [i.txt] being a directory, returns normally: every
    [i.txt] with [i < N] now holds [chunks[i]] (replaced if it was there,
    created if not), every other entry of the directory is as it was (files
    of an earlier, longer run stay behind), and nothing outside the
    directory has changed. *)
Theorem sequential_strategy_overwrites_and_keeps (d : Dirs) (chunks : list string)
    (m : gmap string node) (w : world) :
  d ≠ EXECUTOR → fs w !! value d = Some (Dir m) → no_clash m →
  ∃ (m' : gmap string node) (w' : world),
    strategy d chunks w = (Ok tt, w') ∧
    fs w' = <[value d := Dir m']> (fs w) ∧
    (∀ i chunk, chunks !! i = Some chunk → m' !! entry_name i = Some (File chunk)) ∧
    (∀ s, (∀ i, i < length chunks → s ≠ entry_name i) → m' !! s = m !! s).
Proof.
  intros Hd Hm Hclash.
  destruct (sequential_ok d chunks m w Hd Hm Hclash) as (l & t & w' & Hrun & Hfs & _).
  exists (files_from 0 chunks ∪ m), w'. split; [done|]. split; [done|]. split.
  - intros i chunk Hi. apply lookup_union_Some_l.
    pose proof (files_from_lookup 0 chunks i) as Hf. simpl in Hf. by rewrite Hf, Hi.
  - intros s Hs. apply lookup_union_r. by apply files_from_other.
Qed.

Lemma sequential_strategy_overwrites_and_keeps_witness :
  ∃ (m' : gmap string node) (w' : world),
    strategy FILE ["AB"] (plain_world {["file" := Dir {["0.txt" := File "old";
                                                        "1.txt" := File "stale"]}]})
      = (Ok tt, w') ∧
    fs w' = <[value FILE := Dir m']>
              (fs (plain_world {["file" := Dir {["0.txt" := File "old";
                                                 "1.txt" := File "stale"]}]})) ∧
    (∀ i chunk, ["AB"] !! i = Some chunk → m' !! entry_name i = Some (File chunk)) ∧
    (∀ s, (∀ i, i < length ["AB"] → s ≠ entry_name i) →
          m' !! s = ({["0.txt" := File "old"; "1.txt" := File "stale"]}
                       : gmap string node) !! s).
Proof.
  apply (sequential_strategy_overwrites_and_keeps FILE ["AB"]
           {["0.txt" := File "old"; "1.txt" := File "stale"]}
           (plain_world {["file" := Dir {["0.txt" := File "old";
                                          "1.txt" := File "stale"]}]})).
  - discriminate.
  - reflexivity.
  - intros idx.
    destruct (decide (entry_name idx = "0.txt")) as [->|H0]; [reflexivity|].
    destruct (decide (entry_name idx = "1.txt")) as [->|H1]; [reflexivity|].
    by rewrite lookup_insert_ne, lookup_singleton_ne.
Defined.

Lemma for_enumerate_app (body : nat → string → M unit) (l1 l2 : list string) :
  ∀ idx w,
    for_enumerate body idx (l1 ++ l2) w =
      (for_enumerate body idx l1 ;; for_enumerate body (idx + length l1) l2) w.
Proof.
  induction l1 as [|c l1 IH]; intros idx w; simpl.
  - unfold bind, ret. by rewrite Nat.add_0_r.
  - unfold bind in *. destruct (body idx c w) as [[[]|e] w1]; [|done].
    rewrite IH. by replace (S idx + length l1) with (idx + S (length l1)) by lia.
Qed.

Lemma write_loop_prefix (d : string) (chunks : list string) :
  ∀ (idx : nat) (m : gmap string node) (w : world),
    fs w !! d = Some (Dir m) →
    (∀ i, i < length chunks → is_dir (m !! entry_name (idx + i)) = false) →
    ∃ l,
      for_enumerate (λ idx chunk, write_file (file_name d idx) chunk) idx chunks w =
        (Ok tt,
         with_fs_log (<[d := Dir (files_from idx chunks ∪ m)]> (fs w)) (log w ++ l) w) ∧
      l.*1 = write_events d idx chunks.
Proof.
  induction chunks as [|chunk rest IH]; intros idx m w Hd Hm.
  - exists []. simpl. unfold ret, with_fs_log.
    rewrite (left_id_L ∅ (∪)), insert_id, app_nil_r, world_eta by done. by split.
  - simpl for_enumerate. unfold bind at 1. unfold write_file at 1.
    change (file_name d idx) with [d; entry_name idx].
    assert (H0 : is_dir (m !! entry_name idx) = false).
    { rewrite <- (Nat.add_0_r idx). apply Hm. simpl. lia. }
    rewrite (write_one d (entry_name idx) chunk m w Hd H0).
    set (m1 := <[entry_name idx := File chunk]> m).
    set (l1 := [(EvOpen [d; entry_name idx], <[d := Dir (<[entry_name idx := File ""]> m)]> (fs w));
                (EvWrite [d; entry_name idx] chunk, <[d := Dir m1]> (fs w));
                (EvClose [d; entry_name idx], <[d := Dir m1]> (fs w))]).
    destruct (IH (S idx) m1 (with_fs_log (<[d := Dir m1]> (fs w)) (log w ++ l1) w))
      as (l & Hrun & Hev).
    { simpl. apply lookup_insert_eq. }
    { intros i Hi. unfold m1. rewrite lookup_insert_ne.
      - replace (S idx + i) with (idx + S i) by lia. apply Hm. simpl. lia.
      - intros H. apply entry_name_inj in H. lia. }
    exists (l1 ++ l). rewrite Hrun. split.
    + f_equal. unfold with_fs_log.
      cbn [fs log now ticks nticks rng ndrawn sched nsched files_from].
      rewrite insert_insert_eq, <- app_assoc. fold (entry_name idx).
      f_equal. do 2 f_equal. unfold m1.
      rewrite <- insert_union_l.
      rewrite insert_union_r; [done|]. apply files_from_before. lia.
    + rewrite fmap_app, Hev. reflexivity.
Qed.

Lemma write_loop_fails_at (d : string) (l1 : list string) (c : string)
    (l2 : list string) (m m' : gmap string node) (w : world) :
  fs w !! d = Some (Dir m) →
  m !! entry_name (length l1) = Some (Dir m') →
  (∀ i, i < length l1 → is_dir (m !! entry_name i) = false) →
  ∃ l,
    for_enumerate (λ idx chunk, write_file (file_name d idx) chunk) 0
      (l1 ++ c :: l2) w =
      (Raise (IsADirectoryError (file_name d (length l1))),
       with_fs_log (<[d := Dir (files_from 0 l1 ∪ m)]> (fs w)) (log w ++ l) w) ∧
    l.*1 = write_events d 0 l1.
Proof.
  intros Hm Hclash Hbefore.
  destruct (write_loop_prefix d l1 0 m w Hm) as (l & Hrun & Hev).
  { intros i Hi. by apply Hbefore. }
  exists l. split; [|done].
  rewrite for_enumerate_app. unfold bind at 1. rewrite Hrun.
  simpl for_enumerate. unfold bind at 1.
  rewrite write_file_unfold. unfold with_, bind, open_w.
  change (file_name d (length l1)) with [d; entry_name (length l1)].
  rewrite stat_at_2. simpl fs. rewrite lookup_insert_eq.
  rewrite lookup_union_r, Hclash; [done|].
  apply files_from_other. intros i Hi H. apply entry_name_inj in H. simpl in H. lia.
Qed.

(** X14. A sequential strategy stops at the first file it cannot open.  When
    [k.txt] is a directory and no earlier [i.txt] is, the strategy raises
    [IsADirectoryError] for [k.txt]; the files [0.txt] ... [(k-1).txt] have
    been written, in order, nothing after them has been attempted, and the
    timer's line has still been printed. *)
Theorem sequential_strategy_stops_at_first_failure (d : Dirs) (chunks : list string)
    (k : nat) (m m' : gmap string node) (w : world) :
  d ≠ EXECUTOR → fs w !! value d = Some (Dir m) →
  k < length chunks → m !! entry_name k = Some (Dir m') →
  (∀ i, i < k → is_dir (m !! entry_name i) = false) →
  ∃ (t : N) (w' : world),
    strategy d chunks w = (Raise (IsADirectoryError (file_name (value d) k)), w') ∧
    fs w' = <[value d := Dir (files_from 0 (take k chunks) ∪ m)]> (fs w) ∧
    (log w').*1 = (log w).*1 ++ write_events (value d) 0 (take k chunks) ++
                  [EvPrint (timer_line (timer_label d) t)].
Proof.
  intros Hd Hm Hk Hclash Hbefore.
  destruct (lookup_lt_is_Some_2 chunks k Hk) as [c Hc].
  assert (Hlen : length (take k chunks) = k) by (rewrite length_take; lia).
  destruct (write_loop_fails_at (value d) (take k chunks) c (drop (S k) chunks)
              m m' (clock_read w) Hm) as (l & Hrun & Hev).
  { by rewrite Hlen. }
  { intros i Hi. apply Hbefore. lia. }
  rewrite (take_drop_middle chunks k c Hc), Hlen in Hrun.
  rewrite sequential_unfold, perf_manager_outcome by done. simpl. rewrite Hrun.
  eexists _, _. split; [reflexivity|]. simpl. split; [reflexivity|].
  by rewrite !fmap_app, Hev, <- app_assoc.
Qed.

Lemma sequential_strategy_stops_at_first_failure_witness :
  ∃ (t : N) (w' : world),
    strategy AIOFILE ["AB"; "CDE"; "F"] (plain_world {["aiofile" := Dir {["1.txt" := Dir ∅]}]})
      = (Raise (IsADirectoryError (file_name (value AIOFILE) 1)), w') ∧
    fs w' = <[value AIOFILE := Dir (files_from 0 (take 1 ["AB"; "CDE"; "F"])
                                     ∪ {["1.txt" := Dir ∅]})]>
              (fs (plain_world {["aiofile" := Dir {["1.txt" := Dir ∅]}]})) ∧
    (log w').*1 = (log (plain_world {["aiofile" := Dir {["1.txt" := Dir ∅]}]})).*1 ++
                  write_events (value AIOFILE) 0 (take 1 ["AB"; "CDE"; "F"]) ++
                  [EvPrint (timer_line (timer_label AIOFILE) t)].
Proof.
  apply (sequential_strategy_stops_at_first_failure AIOFILE ["AB"; "CDE"; "F"] 1
           {["1.txt" := Dir ∅]} ∅
           (plain_world {["aiofile" := Dir {["1.txt" := Dir ∅]}]})).
  - discriminate.
  - reflexivity.
  - simpl. lia.
  - reflexivity.
  - intros i Hi. assert (i = 0) as -> by lia. reflexivity.
Defined.

Lemma indices_where_none (f : task → bool) (ts : list task) :
  ∀ k, Forall (λ t, f t = false) ts → indices_where f k ts = [].
Proof.
  induction ts as [|t ts IH]; intros k Hall; [done|].
  apply Forall_cons in Hall as [Ht Hts]. simpl. rewrite Ht. simpl. by apply IH.
Qed.

Lemma submit_all_queued (d : string) (chunks : list string) :
  ∀ k, Forall (λ t, (t_pc t = 0 ∨ t_pc t = 3) ∧ ∃ f, t_file t = [d; f])
         (submit_all d k chunks).
Proof.
  induction chunks as [|c rest IH]; intros k; simpl; constructor; [|apply IH].
  simpl. split; [by left|]. by eexists.
Qed.

(** Without its directory every task of the pool fails at its open. *)
Lemma run_pool_missing_dir (d : string) :
  ∀ (fuel : nat) (ts : list task) (e : exn) (w : world),
    fs w !! d = None →
    Forall (λ t, (t_pc t = 0 ∨ t_pc t = 3) ∧ ∃ f, t_file t = [d; f]) ts →
    ∃ (ts' : list task) (w' : world),
      run_pool fuel ts (Some e) w = ((ts', Some e), w') ∧
      fs w' = fs w ∧ log w' = log w.
Proof.
  induction fuel as [|fuel IH]; intros ts e w Hd Hts; [by exists ts, w|].
  rewrite run_pool_S. destruct (runnable max_workers ts) as [|r rs] eqn:Hr;
    [by exists ts, w|].
  destruct (lookup_lt_is_Some_2 (r :: rs)
              ((next_choice w).1 `mod` length (r :: rs))) as [i Hi].
  { apply Nat.mod_upper_bound. simpl. lia. }
  rewrite Hi.
  assert (Hin : i ∈ runnable max_workers ts).
  { rewrite Hr. eapply list_elem_of_lookup_2, Hi. }
  apply runnable_elem in Hin as (t & Ht & Hlt). rewrite Ht.
  pose proof (Forall_lookup_1 _ _ _ _ Hts Ht) as [Hpc [f Hf]].
  destruct t as [tf td pc]. simpl in Hpc, Hf, Hlt. subst tf.
  assert (pc = 0) as -> by lia.
  unfold step_task. simpl t_pc. simpl t_file. simpl t_data. cbv iota.
  unfold open_w. rewrite stat_at_2. simpl fs. rewrite Hd.
  change (parent [d; f]) with [d]. rewrite stat_at_1. simpl fs. rewrite Hd.
  simpl first_error.
  destruct (IH (<[i := Task [d; f] td 3]> ts) e (next_choice w).2) as (ts' & w' & Hrun & Hfs & Hlog).
  { done. }
  { apply Forall_insert; [done|]. simpl. split; [by right|by eexists]. }
  exists ts', w'. by rewrite Hrun.
Qed.

Lemma run_pool_first_step (fuel : nat) (t : task) (ts : list task) (w : world) :
  runnable max_workers (t :: ts) = [0] →
  run_pool (S fuel) (t :: ts) None w =
    let '((t', e), w1) := step_task t (next_choice w).2 in
    run_pool fuel (t' :: ts) (first_error None e) w1.
Proof.
  intros Hr. rewrite run_pool_S, Hr. change (length [0]) with 1.
  rewrite Nat.mod_1_r. reflexivity.
Qed.

Lemma executor_missing_dir (d c : string) (rest : list string) (w : world) :
  fs w !! d = None →
  ∃ w1, gather (submit_all d 0 (c :: rest)) w
          = (Raise (FileNotFoundError (file_name d 0)), w1) ∧
        fs w1 = fs w ∧ log w1 = log w.
Proof.
  intros Hd. unfold gather.
  replace (3 * length (submit_all d 0 (c :: rest)))
    with (S (2 + 3 * length (submit_all d 1 rest))) by (simpl; lia).
  change (submit_all d 0 (c :: rest))
    with (Task [d; entry_name 0] c 0 :: submit_all d 1 rest).
  rewrite run_pool_first_step.
  - assert (Hstep : step_task (Task [d; entry_name 0] c 0) (next_choice w).2
              = ((Task [d; entry_name 0] c 3, Some (FileNotFoundError [d; entry_name 0])),
                 (next_choice w).2)).
    { unfold step_task. simpl t_pc. cbv iota. simpl t_file. simpl t_data.
      unfold open_w. rewrite stat_at_2. simpl fs. rewrite Hd.
      change (parent [d; entry_name 0]) with [d].
      rewrite stat_at_1. simpl fs. by rewrite Hd. }
    rewrite Hstep. simpl first_error.
    destruct (run_pool_missing_dir d
                (2 + 3 * length (submit_all d 1 rest))
                (Task [d; entry_name 0] c 3 :: submit_all d 1 rest)
                (FileNotFoundError [d; entry_name 0]) (next_choice w).2)
      as (ts' & w' & Hrun & Hfs & Hlog).
    { done. }
    { constructor; [|apply submit_all_queued].
      simpl. split; [by right|by eexists]. }
    rewrite Hrun. by exists w'.
  - unfold runnable. rewrite (indices_where_none in_flight).
    + simpl. by rewrite take_0.
    + constructor; [done|].
      eapply Forall_impl; [apply (submit_all_queued d rest 1)|].
      intros t [Hpc _]. unfold in_flight. by destruct Hpc as [->| ->].
Qed.

(** X15. Any of the four strategies, run when its directory does not exist:
    with no chunk to write it returns normally; otherwise it raises the
    [FileNotFoundError] of one of its files, [0.txt] for a sequential
    strategy, the file of the task that failed first for the pool.  Either
    way nothing is created, and the only thing logged is the timer's line. *)
Theorem strategy_without_its_directory (d : Dirs) (chunks : list string) (w : world) :
  fs w !! value d = None →
  ∃ (t : N) (r : result unit) (w' : world),
    strategy d chunks w = (r, w') ∧
    fs w' = fs w ∧
    (log w').*1 = (log w).*1 ++ [EvPrint (timer_line (timer_label d) t)] ∧
    match chunks with
    | [] => r = Ok tt
    | _ :: _ =>
        ∃ i, i < length chunks ∧
             r = Raise (FileNotFoundError (file_name (value d) i)) ∧
             (d ≠ EXECUTOR → i = 0)
    end.
Proof.
  intros Hd. destruct (decide (d = EXECUTOR)) as [->|Hne].
  - change (strategy EXECUTOR chunks)
      with (perf_manager (timer_label EXECUTOR)
              (gather (submit_all (value EXECUTOR) 0 chunks))).
    rewrite perf_manager_outcome. cbv zeta. destruct chunks as [|c rest].
    + eexists _, _, _. split; [reflexivity|]. simpl. split; [done|].
      split; [by rewrite fmap_app|done].
    + destruct (executor_missing_dir (value EXECUTOR) c rest (clock_read w) Hd)
        as (w1 & Hrun & Hfs & Hlog).
      rewrite Hrun. eexists _, _, _. split; [reflexivity|]. simpl.
      rewrite Hfs, Hlog. split; [done|]. split; [by rewrite fmap_app|].
      exists 0. split; [lia|]. by split.
  - rewrite sequential_unfold, perf_manager_outcome by done. cbv zeta.
    destruct chunks as [|c rest].
    + eexists _, _, _. split; [reflexivity|]. simpl. split; [done|].
      split; [by rewrite fmap_app|done].
    + simpl for_enumerate. unfold bind at 1.
      rewrite write_file_unfold. unfold with_, bind, open_w.
      change (file_name (value d) 0) with [value d; entry_name 0].
      rewrite stat_at_2. simpl fs. rewrite Hd.
      change (parent [value d; entry_name 0]) with [value d].
      rewrite stat_at_1. simpl fs. rewrite Hd.
      eexists _, _, _. split; [reflexivity|]. simpl. split; [done|].
      split; [by rewrite fmap_app|].
      exists 0. split; [lia|]. by split.
Qed.

Lemma strategy_without_its_directory_witness :
  ∃ (t : N) (r : result unit) (w' : world),
    strategy AIOFILES ["AB"; "CDE"] (demo_world ∅) = (r, w') ∧
    fs w' = fs (demo_world ∅) ∧
    (log w').*1 = (log (demo_world ∅)).*1 ++
                  [EvPrint (timer_line (timer_label AIOFILES) t)] ∧
    ∃ i, i < length ["AB"; "CDE"] ∧
         r = Raise (FileNotFoundError (file_name (value AIOFILES) i)) ∧
         (AIOFILES ≠ EXECUTOR → i = 0).
Proof.
  exact (strategy_without_its_directory AIOFILES ["AB"; "CDE"] (demo_world ∅) eq_refl).
Defined.

(** ** The order of the pool's calls *)

Lemma indices_where_length (f : task → bool) (ts : list task) :
  ∀ k, length (indices_where f k ts)
       = sum_list (map (λ t, if f t then 1 else 0) ts).
Proof.
  induction ts as [|t ts IH]; intros k; simpl; [done|].
  rewrite length_app, IH. by destruct (f t).
Qed.

Lemma sum_list_insert (g : task → nat) (ts : list task) :
  ∀ (i : nat) (t t' : task),
    ts !! i = Some t →
    sum_list (map g (<[i := t']> ts)) + g t = sum_list (map g ts) + g t'.
Proof.
  induction ts as [|t0 ts IH]; intros i t t' Hi; [done|].
  destruct i as [|i]; simpl in *.
  - injection Hi as ->. lia.
  - specialize (IH i t t' Hi). lia.
Qed.

Lemma busy_insert (ts : list task) (i : nat) (t t' : task) :
  ts !! i = Some t →
  busy (<[i := t']> ts) + (if in_flight t then 1 else 0)
  = busy ts + (if in_flight t' then 1 else 0).
Proof.
  intros Hi. unfold busy. rewrite !indices_where_length.
  apply (sum_list_insert (λ t, if in_flight t then 1 else 0) ts i t t' Hi).
Qed.

Lemma runnable_queued_has_a_worker (ts : list task) (i : nat) (t : task) :
  i ∈ runnable max_workers ts → ts !! i = Some t → t_pc t = 0 →
  busy ts < max_workers.
Proof.
  unfold runnable, busy. intros Hi Ht Hpc. apply elem_of_app in Hi as [Hi|Hi].
  - apply indices_where_elem in Hi as (t0 & Ht0 & Hf & _).
    rewrite Nat.sub_0_r, Ht in Ht0. injection Ht0 as <-.
    unfold in_flight in Hf. by rewrite Hpc in Hf.
  - destruct (length (indices_where in_flight 0 ts) <? max_workers) eqn:Hlt.
    + by apply Nat.ltb_lt.
    + by apply not_elem_of_nil in Hi.
Qed.

Lemma step_event (t : task) (ev : event) :
  t_pc t < 3 →
  done_events (Task (t_file t) (t_data t) (S (t_pc t))) = done_events t ++ [ev] →
  event_path ev = Some (t_file t) ∧
  is_open ev = (t_pc t =? 0) ∧ is_close ev = (t_pc t =? 2).
Proof.
  destruct t as [tf td pc]. unfold done_events. simpl. intros Hlt Hev.
  destruct pc as [|[|[|pc]]]; [| | |lia]; simpl in Hev;
    injection Hev as <-; by repeat split.
Qed.

Lemma file_name_inj (d : string) (i j : nat) : file_name d i = file_name d j → i = j.
Proof. unfold file_name. intros H. injection H as H. by apply entry_name_inj. Qed.

Section pool_trace.
  Context (d : string) (m0 : gmap string node) (chunks : list string).

Lemma run_pool_trace :
  ∀ (fuel : nat) (ts : list task) (w : world),
    pool_inv d m0 chunks ts (fs w) → remaining ts ≤ fuel → busy ts ≤ max_workers →
    ∃ (ts' : list task) (l : list (event * gmap string node)) (w' : world),
      run_pool fuel ts None w = ((ts', None), w') ∧
      pool_inv d m0 chunks ts' (fs w') ∧
      (∀ t, t ∈ ts' → t_pc t = 3) ∧
      log w' = log w ++ l ∧
      (∀ n, busy ts + count_events is_open (take n (l.*1))
            ≤ count_events is_close (take n (l.*1)) + max_workers) ∧
      (∀ i t t', ts !! i = Some t → ts' !! i = Some t' →
         done_events t ++ events_on (t_file t) (l.*1) = done_events t').
Proof.
  induction fuel as [|fuel IH]; intros ts w Hinv Hrem Hbusy.
  - exists ts, [], w. simpl. rewrite app_nil_r.
    split; [done|]. split; [done|]. split.
    { apply remaining_0; [lia|]. eapply pool_inv_pcs, Hinv. }
    split; [done|]. split.
    + intros n. rewrite take_nil. simpl. lia.
    + intros i t t' Ht Ht'. rewrite Ht in Ht'. injection Ht' as <-. by rewrite app_nil_r.
  - rewrite run_pool_S. destruct (runnable max_workers ts) as [|r rs] eqn:Hr.
    + exists ts, [], w. simpl. rewrite app_nil_r.
      split; [done|]. split; [done|]. split.
      { apply runnable_nil; [done|]. eapply pool_inv_pcs, Hinv. }
      split; [done|]. split.
      * intros n. rewrite take_nil. simpl. lia.
      * intros i t t' Ht Ht'. rewrite Ht in Ht'. injection Ht' as <-.
        by rewrite app_nil_r.
    + destruct (lookup_lt_is_Some_2 (r :: rs)
                  ((next_choice w).1 `mod` length (r :: rs))) as [i Hi].
      { apply Nat.mod_upper_bound. simpl. lia. }
      rewrite Hi.
      assert (Hin : i ∈ runnable max_workers ts).
      { rewrite Hr. eapply list_elem_of_lookup_2, Hi. }
      pose proof Hin as Hin'.
      apply runnable_elem in Hin' as (t & Ht & Hlt). rewrite Ht.
      destruct (step_task_ok d m0 chunks ts i t (next_choice w).2 Hinv Ht Hlt)
        as (ev & w1 & Hstep & Hlog1 & _ & Hdone1 & Hinv1).
      rewrite Hstep. simpl first_error.
      set (t1 := Task (t_file t) (t_data t) (S (t_pc t))) in *.
      destruct (step_event t ev Hlt Hdone1) as (Hpath & Hopen & Hclose).
      pose proof (busy_insert ts i t t1 Ht) as Hb.
      assert (Hb1 : busy (<[i := t1]> ts) ≤ max_workers ∧
                    busy (<[i := t1]> ts) + (if is_close ev then 1 else 0)
                    = busy ts + (if is_open ev then 1 else 0)).
      { rewrite Hopen, Hclose. unfold in_flight in Hb. simpl t_pc in Hb.
        destruct (t_pc t) as [|[|[|pc]]] eqn:Hpc; simpl in Hb |- *; [| | |lia].
        - pose proof (runnable_queued_has_a_worker ts i t Hin Ht Hpc). lia.
        - lia.
        - lia. }
      destruct Hb1 as [Hb1 Hb2].
      destruct (IH _ w1 Hinv1) as (ts' & l & w' & Hrun & Hinv' & Hdone & Hlog & Hbound & Hfiles).
      { pose proof (remaining_step ts i t t1 Ht Hlt eq_refl). lia. }
      { done. }
      exists ts', ((ev, fs w1) :: l), w'. split; [done|]. split; [done|].
      split; [done|]. split; [|split].
      * rewrite Hlog, Hlog1. simpl. by rewrite <- app_assoc.
      * unfold max_workers in *. intros [|n].
        -- simpl. lia.
        -- change (take (S n) (((ev, fs w1) :: l).*1)) with (ev :: take n (l.*1)).
           cbn [count_events]. specialize (Hbound n). revert Hb2.
           destruct (is_open ev), (is_close ev); lia.
      * intros j tj tj' Hj Hj'. simpl.
        destruct (decide (i = j)) as [<-|Hne].
        -- rewrite Ht in Hj. injection Hj as <-.
           rewrite Hpath, bool_decide_eq_true_2 by done.
           pose proof (Hfiles i t1 tj') as Hf.
           rewrite list_lookup_insert_eq in Hf by (by eapply lookup_lt_Some).
           specialize (Hf eq_refl Hj'). rewrite <- Hf, Hdone1.
           by rewrite <- app_assoc.
        -- rewrite bool_decide_eq_false_2.
           ++ apply (Hfiles j); [|done]. by rewrite list_lookup_insert_ne.
           ++ rewrite Hpath. intros Heq. injection Heq as Heq.
              destruct Hinv as (dm & _ & _ & Htasks & _).
              destruct (Htasks i t Ht) as (Hfi & _).
              destruct (Htasks j tj Hj) as (Hfj & _).
              rewrite Hfi, Hfj in Heq. by apply file_name_inj in Heq.
Qed.

End pool_trace.

Lemma submit_all_not_busy (d : string) (chunks : list string) :
  ∀ k, busy (submit_all d k chunks) = 0.
Proof.
  intros k. unfold busy. rewrite (indices_where_none in_flight); [done|].
  eapply Forall_impl; [apply (submit_all_queued d chunks k)|].
  intros t [Hpc _]. unfold in_flight. by destruct Hpc as [->| ->].
Qed.

(** The pool's run on its empty directory, with the order of its calls. *)
Lemma executor_trace (chunks : list string) (w : world) :
  fs w !! value EXECUTOR = Some (Dir ∅) →
  ∃ (l : list (event * gmap string node)) (t : N) (w' : world),
    test_executor chunks w = (Ok tt, w') ∧
    log w' = log w ++ l ++ [(EvPrint (timer_line (timer_label EXECUTOR) t), fs w')] ∧
    (∀ n, count_events is_open (take n (l.*1))
          ≤ count_events is_close (take n (l.*1)) + max_workers) ∧
    (∀ i chunk, chunks !! i = Some chunk →
       events_on (file_name (value EXECUTOR) i) (l.*1) =
         [EvOpen (file_name (value EXECUTOR) i);
          EvWrite (file_name (value EXECUTOR) i) chunk;
          EvClose (file_name (value EXECUTOR) i)]).
Proof.
  intros Hd.
  destruct (run_pool_trace (value EXECUTOR) (fs w) chunks
              (3 * length chunks) (submit_all (value EXECUTOR) 0 chunks) (clock_read w))
    as (ts' & l & w1 & Hrun & Hinv & Hdone & Hlog & Hbound & Hfiles).
  { by apply pool_inv_submitted. }
  { by rewrite submit_all_remaining. }
  { rewrite submit_all_not_busy. lia. }
  assert (Hbody : gather (submit_all (value EXECUTOR) 0 chunks) (clock_read w)
                  = (Ok tt, w1)).
  { unfold gather. rewrite submit_all_length. by rewrite Hrun. }
  destruct (perf_manager_ok (timer_label EXECUTOR) _ tt w w1 Hbody)
    as (t & w' & Hp & Hfs & Hlog').
  exists l, t, w'. split; [exact Hp|].
  split. { rewrite Hlog', Hlog, Hfs. simpl. by rewrite <- app_assoc. }
  split.
  - intros n. specialize (Hbound n). rewrite submit_all_not_busy in Hbound. lia.
  - intros i chunk Hi.
    destruct Hinv as (dm & _ & Hlen & Htasks & _).
    destruct (lookup_lt_is_Some_2 ts' i) as [t' Ht'].
    { rewrite Hlen. by eapply lookup_lt_Some. }
    destruct (lookup_lt_is_Some_2 (submit_all (value EXECUTOR) 0 chunks) i) as [t0 Ht0].
    { rewrite submit_all_length. by eapply lookup_lt_Some. }
    destruct (submit_all_lookup _ _ _ _ _ Ht0) as (Hf0 & _ & Hpc0).
    destruct (Htasks i t' Ht') as (Hf' & Hc' & _ & _).
    pose proof (Hfiles i t0 t' Ht0 Ht') as Hev.
    rewrite Hf0 in Hev.
    unfold done_events in Hev. rewrite Hpc0, (Hdone t'), Hf' in Hev
      by (by eapply list_elem_of_lookup_2).
    rewrite Hi in Hc'. injection Hc' as ->. exact Hev.
Qed.

(** X16. The pool never has more than its three workers' worth of files
    open: at every point of [test_executor]'s run on its empty directory, the
    opens made so far exceed the closes made so far by at most
    [max_workers = 3], whatever the scheduling. *)
Theorem pool_keeps_at_most_three_files_open (chunks : list string) (w : world) :
  fs w !! value EXECUTOR = Some (Dir ∅) →
  ∃ (l : list (event * gmap string node)) (t : N) (w' : world),
    test_executor chunks w = (Ok tt, w') ∧
    log w' = log w ++ l ++ [(EvPrint (timer_line (timer_label EXECUTOR) t), fs w')] ∧
    ∀ n, count_events is_open (take n (l.*1))
         ≤ count_events is_close (take n (l.*1)) + 3.
Proof.
  intros Hd.
  destruct (executor_trace chunks w Hd) as (l & t & w' & Hrun & Hlog & Hbound & _).
  by exists l, t, w'.
Qed.

Lemma pool_keeps_at_most_three_files_open_witness :
  ∃ (l : list (event * gmap string node)) (t : N) (w' : world),
    test_executor ["A"; "B"; "C"; "D"; "E"] (demo_world {["executor" := Dir ∅]})
      = (Ok tt, w') ∧
    log w' = log (demo_world {["executor" := Dir ∅]}) ++ l ++
             [(EvPrint (timer_line (timer_label EXECUTOR) t), fs w')] ∧
    ∀ n, count_events is_open (take n (l.*1))
         ≤ count_events is_close (take n (l.*1)) + 3.
Proof.
  exact (pool_keeps_at_most_three_files_open ["A"; "B"; "C"; "D"; "E"]
           (demo_world {["executor" := Dir ∅]}) eq_refl).
Defined.

(** X17. Whatever the scheduling, the pool's calls on any one file are, in
    this order, its open, the write of its chunk, and its close; calls on
    other files may come in between, never a second open, write or close of
    the same file. *)
Theorem pool_writes_each_file_in_order (chunks : list string) (w : world) :
  fs w !! value EXECUTOR = Some (Dir ∅) →
  ∃ (l : list (event * gmap string node)) (t : N) (w' : world),
    test_executor chunks w = (Ok tt, w') ∧
    log w' = log w ++ l ++ [(EvPrint (timer_line (timer_label EXECUTOR) t), fs w')] ∧
    ∀ i chunk, chunks !! i = Some chunk →
      events_on (file_name (value EXECUTOR) i) (l.*1) =
        [EvOpen (file_name (value EXECUTOR) i);
         EvWrite (file_name (value EXECUTOR) i) chunk;
         EvClose (file_name (value EXECUTOR) i)].
Proof.
  intros Hd.
  destruct (executor_trace chunks w Hd) as (l & t & w' & Hrun & Hlog & _ & Hfiles).
  by exists l, t, w'.
Qed.

Lemma pool_writes_each_file_in_order_witness :
  ∃ (l : list (event * gmap string node)) (t : N) (w' : world),
    test_executor ["A"; "B"; "C"; "D"; "E"] (demo_world {["executor" := Dir ∅]})
      = (Ok tt, w') ∧
    log w' = log (demo_world {["executor" := Dir ∅]}) ++ l ++
             [(EvPrint (timer_line (timer_label EXECUTOR) t), fs w')] ∧
    ∀ i chunk, ["A"; "B"; "C"; "D"; "E"] !! i = Some chunk →
      events_on (file_name (value EXECUTOR) i) (l.*1) =
        [EvOpen (file_name (value EXECUTOR) i);
         EvWrite (file_name (value EXECUTOR) i) chunk;
         EvClose (file_name (value EXECUTOR) i)].
Proof.
  exact (pool_writes_each_file_in_order ["A"; "B"; "C"; "D"; "E"]
           (demo_world {["executor" := Dir ∅]}) eq_refl).
Defined.

(** With five chunks the pool does reach three open files, and holds the
    fourth back until one is closed. *)
Example pool_reaches_three_open_files :
  let evs := map fst (log (test_executor ["A"; "B"; "C"; "D"; "E"]
                             (demo_world {["executor" := Dir ∅]})).2) in
  count_events is_open (take 5 evs) = 3 ∧ count_events is_close (take 5 evs) = 0 ∧
  evs !! 5 = Some (EvClose ["executor"; "0.txt"]) ∧
  evs !! 7 = Some (EvOpen ["executor"; "3.txt"]).
Proof. vm_compute. repeat split; reflexivity. Qed.

(** ** A run that fails *)

(** X18. When a label's name is held by a regular file, [main] prints
    [n=10, chunk_size=10240], fails in the reset without printing any timer
    line, prints [Exited], and ends with the [NotADirectoryError] of the
    first such label. *)
Theorem main_on_a_blocked_label (w : world) (d : Dirs) :
  first_blocked (fs w) = Some d →
  ∃ w', main w = (Raise (NotADirectoryError [value d]), w') ∧
        stdout w' = stdout w ++ ["n=10, chunk_size=10240"; "Exited"].
Proof.
  intros Hblocked.
  destruct (main_generates w) as (chunks & w1 & _ & Hmain & Hfs1 & Hlog1 & _).
  destruct (test_blocked chunks w1 d) as (l & w2 & Hrun & _ & _ & Hout).
  { by rewrite Hfs1. }
  exists (emit (EvPrint "Exited") w2).
  rewrite Hmain. unfold try_finally, print. rewrite Hrun. split; [done|].
  rewrite stdout_emit_print, Hout. unfold stdout. rewrite Hlog1, prints_app.
  by rewrite <- app_assoc.
Qed.

Lemma main_on_a_blocked_label_witness :
  ∃ w', main (plain_world {["aiofile" := File "x"]})
          = (Raise (NotADirectoryError [value AIOFILE]), w') ∧
        stdout w' = stdout (plain_world {["aiofile" := File "x"]}) ++
                    ["n=10, chunk_size=10240"; "Exited"].
Proof.
  exact (main_on_a_blocked_label (plain_world {["aiofile" := File "x"]}) AIOFILE eq_refl).
Defined.
